(** * SLAMwithVLM: the conversation streamer (main.py) and the screenshot
      capturer (screenshot_tool.py), embedded and verified.

    Python values that come out of [r.json()] are modelled by the inductive
    type [json]; dictionaries keep their insertion order as association
    lists.  Everything that touches the outside (the HTTP session, the log,
    [time.sleep], [print], the transcript file) is threaded through a small
    state-and-exception monad over a [world] that records an event trace.
    The remote endpoint is an oracle: it answers the n-th POST of a run. *)

From Stdlib Require Import String Ascii List ZArith QArith Qpower Lia Bool Arith.
From Stdlib Require Import Sorting.Sorted Sorting.Permutation.
Import ListNotations.

Close Scope Q_scope.
Open Scope string_scope.
Open Scope list_scope.

(* ================================================================== *)
(** ** Python values and exceptions *)

#[local] Set Warnings "-register-all".

(** Values produced by [json.loads]; [JNull] is Python's [None].  A number
    is kept by its (finite) numeric value. *)
Inductive json : Type :=
| JNull
| JBool (b : bool)
| JNum (q : Q)
| JStr (s : string)
| JArr (l : list json)
| JObj (m : list (string * json)).

(** The exception classes that can arise in main.py. *)
Inductive exn : Type :=
| RequestException      (* transport failure, timeout *)
| HTTPError (status : Z) (* subclass of RequestException *)
| RuntimeError
| KeyError
| ValueError
| JSONDecodeError       (* subclass of ValueError *)
| TypeError
| IndexError
| AttributeError
| OSError.

Inductive result (A : Type) : Type :=
| Ok (a : A)
| Raise (e : exn).
Arguments Ok {A} a.
Arguments Raise {A} e.

Definition rbind {A B} (r : result A) (k : A -> result B) : result B :=
  match r with
  | Ok a => k a
  | Raise e => Raise e
  end.

(** *** Dictionary access *)

Fixpoint assoc (k : string) (m : list (string * json)) : option json :=
  match m with
  | [] => None
  | (k', v) :: m' => if String.eqb k k' then Some v else assoc k m'
  end.

(** [needle in hay] for two [str]. *)
Fixpoint str_contains (needle hay : string) : bool :=
  String.prefix needle hay ||
  match hay with
  | EmptyString => false
  | String _ hay' => str_contains needle hay'
  end.

Definition is_str (k : string) (v : json) : bool :=
  match v with
  | JStr s => String.eqb k s
  | _ => false
  end.

(** [k in data] where [k] is a [str]. *)
Definition py_in (k : string) (data : json) : result bool :=
  match data with
  | JObj m => Ok (match assoc k m with Some _ => true | None => false end)
  | JArr l => Ok (existsb (is_str k) l)
  | JStr s => Ok (str_contains k s)
  | JNull | JBool _ | JNum _ => Raise TypeError
  end.

(** [d.get(k, default)]: only dictionaries have the method. *)
Definition py_get (d : json) (k : string) (default : json) : result json :=
  match d with
  | JObj m => Ok (match assoc k m with Some v => v | None => default end)
  | _ => Raise AttributeError
  end.

(** [d[k]] with a [str] key. *)
Definition py_getitem (d : json) (k : string) : result json :=
  match d with
  | JObj m => match assoc k m with Some v => Ok v | None => Raise KeyError end
  | _ => Raise TypeError
  end.

(** [d[0]]. *)
Definition py_getitem0 (d : json) : result json :=
  match d with
  | JArr [] => Raise IndexError
  | JArr (x :: _) => Ok x
  | JStr EmptyString => Raise IndexError
  | JStr (String c _) => Ok (JStr (String c EmptyString))
  | JObj _ => Raise KeyError      (* keys of a parsed object are strings *)
  | JNull | JBool _ | JNum _ => Raise TypeError
  end.

(** Truth value of a Python object, as tested by [not reply]. *)
Definition truthy (v : json) : bool :=
  match v with
  | JNull => false
  | JBool b => b
  | JNum q => negb (Qeq_bool q 0)
  | JStr s => negb (String.eqb s EmptyString)
  | JArr l => match l with [] => false | _ => true end
  | JObj m => match m with [] => false | _ => true end
  end.

(* ================================================================== *)
(** ** Constants of main.py *)

Definition nl : string := String "010"%char EmptyString.
Definition dq : string := String (ascii_of_nat 34) EmptyString.

Definition OPENROUTER_ENDPOINT : string :=
  "https://openrouter.ai/api/v1/chat/completions".

Definition INITIAL_PROMPT : string :=
  "I'm going to have you 'do SLAM' as a vision LLM, with no algorithmic help. "
  ++ "I just give you a series of pictures, and you make your own map and localize yourself within it. " ++ nl
  ++ "Assume that each new image is at maximum a few steps away from the last one, never a long distance."
  ++ "Be concise. Make your map conceptual instead of exact. i.e. " ++ dq
  ++ "the bush is a few steps north of the stone" ++ dq ++ " "
  ++ "is just fine, no need for exact measurements or directions. Think of yourself as a human orienting themself."
  ++ "Use distictive and descriptive names for things, because you might later see more that are very similar. "
  ++ "and have to name them as well."
  ++ "For each picture I give you, respond with: " ++ nl
  ++ "1. interesting new observations" ++ nl
  ++ "2. your latest map (however you choose to represent it), and " ++ nl
  ++ "3. your current pose within the map. " ++ nl
  ++ "Continue until I tell you we're finished." ++ nl.

Definition SYSTEM_PROMPT : string :=
  "You are a vision language model being used for algorithm-free conceptual SLAM (Simultaneous Localization and Mapping).".

Definition BIRDS_EYE_VIEW_PROMPT : string :=
  "Now that you have processed all images, please provide a comprehensive birds-eye view map of the entire environment you explored, clearly indicating the path taken, key landmarks, and your final localized position. Represent this map in a way that is easy to visualize as a plot.".

Definition RETRYABLE_STATUSES : list Z := [500; 502; 503; 504]%Z.
Definition RETRYABLE_API_CODES : list Z := [524; 529]%Z.

Definition in_statuses (s : Z) (l : list Z) : bool := existsb (Z.eqb s) l.

(** [x in RETRYABLE_API_CODES]: membership in a [set] hashes [x] first, so a
    list or a dictionary raises; numbers compare by value. *)
Definition in_api_codes (x : json) : result bool :=
  match x with
  | JArr _ | JObj _ => Raise TypeError
  | JNum q => Ok (existsb (fun c => Qeq_bool q (inject_Z c)) RETRYABLE_API_CODES)
  | JBool _ | JStr _ | JNull => Ok false
  end.

(* ================================================================== *)
(** ** The world: requests, responses, events *)

Record request : Type := {
  req_api_key : string;
  req_model : string;
  req_messages : list json
}.

(** What [SESSION.post] comes back with: the transport gave up (after its
    own inner retries), or a response with a status code whose body either
    parses ([Some]) or makes [r.json()] raise ([None]). *)
Inductive http_result : Type :=
| Transport_failure
| Response (status_code : Z) (body : option json).

Inductive log_msg : Type :=
| Client_error (status : Z)
| Non_retryable_api_error (err : json)
| Attempt_failed (i attempts : nat) (e : exn)
| All_attempts_failed (attempts : nat) (e : exn).

Inductive printed : Type :=
| Prompt_sent
| Frame_failed (idx : nat) (name : string)
| Frame_reply (idx : nat) (name : string) (reply : json)
| Birds_eye_map (reply : json)
| Birds_eye_failed
| Transcript_written (path : string).

Inductive event : Type :=
| EvPost (r : request)
| EvLogError (m : log_msg)
| EvLogWarning (m : log_msg)
| EvSleep (seconds : Q)
| EvPrint (p : printed)
| EvWrite (path : string) (convo : list json).

Record world : Type := {
  posts : nat;            (* POSTs issued so far *)
  trace : list event      (* oldest first *)
}.

Definition world0 : world := {| posts := 0; trace := [] |}.

Definition M (A : Type) : Type := world -> result A * world.

Definition ret {A} (a : A) : M A := fun w => (Ok a, w).
Definition raise {A} (e : exn) : M A := fun w => (Raise e, w).
Definition bind {A B} (c : M A) (k : A -> M B) : M B :=
  fun w => match c w with
           | (Ok a, w') => k a w'
           | (Raise e, w') => (Raise e, w')
           end.
Definition lift {A} (r : result A) : M A := fun w => (r, w).

Declare Scope py_scope.
Delimit Scope py_scope with py.
Notation "x <- c1 ;; c2" := (bind c1 (fun x => c2))
  (at level 61, c1 at next level, right associativity) : py_scope.
Notation "c1 ;; c2" := (bind c1 (fun _ => c2))
  (at level 61, right associativity) : py_scope.
Open Scope py_scope.

Definition emit (e : event) : M unit :=
  fun w => (Ok tt, {| posts := posts w; trace := trace w ++ [e] |}).

(** [try: body except (requests.RequestException, RuntimeError, KeyError,
    ValueError, json.JSONDecodeError) as e: handler]. *)
Definition caught (e : exn) : bool :=
  match e with
  | RequestException | HTTPError _ | RuntimeError | KeyError
  | ValueError | JSONDecodeError => true
  | TypeError | IndexError | AttributeError | OSError => false
  end.

Definition try_except {A} (body : M A) (handler : exn -> M A) : M A :=
  fun w => match body w with
           | (Ok a, w') => (Ok a, w')
           | (Raise e, w') => if caught e then handler e w' else (Raise e, w')
           end.

(** Observations on a trace. *)
Definition posts_of (t : list event) : list request :=
  flat_map (fun e => match e with EvPost r => [r] | _ => [] end) t.
Definition sleeps_of (t : list event) : list Q :=
  flat_map (fun e => match e with EvSleep q => [q] | _ => [] end) t.
Definition writes_of (t : list event) : list (string * list json) :=
  flat_map (fun e => match e with EvWrite p c => [(p, c)] | _ => [] end) t.
Definition client_errors_logged (t : list event) : list Z :=
  flat_map (fun e => match e with
                     | EvLogError (Client_error s) => [s]
                     | _ => []
                     end) t.

(* ================================================================== *)
(** ** Remote chat client: [send_messages] *)

(** [2 ** i * 0.5] *)
Definition backoff (i : nat) : Q := (inject_Z (2 ^ Z.of_nat i) * (1 # 2))%Q.

Section Client.

(** The endpoint: its answer to a request, given how many POSTs the run
    has issued before this one. *)
Variable server : nat -> request -> http_result.

Definition session_post (rq : request) : M http_result :=
  fun w => (Ok (server (posts w) rq),
            {| posts := S (posts w); trace := trace w ++ [EvPost rq] |}).

(** [r.raise_for_status()] of the requests library. *)
Definition raise_for_status (status : Z) : M unit :=
  if ((400 <=? status) && (status <? 600))%Z
  then raise (HTTPError status) else ret tt.

(** [r.json()] *)
Definition r_json (body : option json) : M json :=
  match body with
  | Some data => ret data
  | None => raise JSONDecodeError
  end.

(** Lines 75-96: what the [try] block does with the response [r]. *)
Definition handle_response (r : http_result) : M json :=
  match r with
  | Transport_failure => raise RequestException
  | Response status body =>
      (if ((400 <=? status) && (status <? 500))%Z
       then (emit (EvLogError (Client_error status)) ;; raise_for_status status)
       else ret tt) ;;
      (if in_statuses status RETRYABLE_STATUSES
       then raise RuntimeError else ret tt) ;;
      data <- r_json body ;;
      has_error <- lift (py_in "error" data) ;;
      retryable <- (if has_error
                    then lift (rbind (py_get data "error" (JObj []))
                                 (fun e => rbind (py_get e "code" JNull) in_api_codes))
                    else ret false) ;;
      if retryable
      then (lift (rbind (py_getitem data "error")
                    (fun e => py_getitem e "code")) ;;
            raise RuntimeError)
      else
        has_error' <- lift (py_in "error" data) ;;
        if has_error'
        then (err <- lift (py_getitem data "error") ;;
              emit (EvLogError (Non_retryable_api_error err)) ;;
              ret JNull)
        else
          choices <- lift (py_getitem data "choices") ;;
          first <- lift (py_getitem0 choices) ;;
          message <- lift (py_getitem first "message") ;;
          lift (py_getitem message "content")
  end.

(** The body of the [try] block, lines 65-96. *)
Definition attempt (rq : request) : M json :=
  r <- session_post rq ;;
  handle_response r.

(** The [for i in range(1, attempts + 1)] loop over the remaining values
    of [i]; falling off the end of the loop returns [None]. *)
Fixpoint send_loop (attempts : nat) (todo : list nat) (rq : request) : M json :=
  match todo with
  | [] => ret JNull
  | i :: rest =>
      try_except (attempt rq)
        (fun e =>
           emit (EvLogWarning (Attempt_failed i attempts e)) ;;
           if Nat.eqb i attempts
           then (emit (EvLogError (All_attempts_failed attempts e)) ;; ret JNull)
           else (emit (EvSleep (backoff i)) ;; send_loop attempts rest rq))
  end.

Definition send_messages (api_key model : string) (messages : list json)
           (attempts : nat) : M json :=
  send_loop attempts (seq 1 attempts)
    {| req_api_key := api_key; req_model := model; req_messages := messages |}.

End Client.

(* ================================================================== *)
(** ** Frame enumerator: [Path.glob] and the natural sort key *)

(** A shell pattern for one path component, as [fnmatch] reads it. *)
Inductive glob_tok : Type :=
| Star
| Lit (c : ascii)
| Class (cs : list ascii).

Fixpoint glob_match (p : list glob_tok) : string -> bool :=
  match p with
  | [] => fun s => match s with EmptyString => true | _ => false end
  | Star :: p' =>
      fix star (s : string) : bool :=
        glob_match p' s ||
        match s with
        | EmptyString => false
        | String _ s' => star s'
        end
  | Lit c :: p' =>
      fun s => match s with
               | String d s' => Ascii.eqb c d && glob_match p' s'
               | EmptyString => false
               end
  | Class cs :: p' =>
      fun s => match s with
               | String d s' => existsb (Ascii.eqb d) cs && glob_match p' s'
               | EmptyString => false
               end
  end.

(** ["*.[pj][np]g"]; names are matched as they are spelled (the rule of
    [Path.glob] on a POSIX file system). *)
Definition FRAME_PATTERN : list glob_tok :=
  [Star; Lit "."; Class ["p"; "j"]%char; Class ["n"; "p"]%char; Lit "g"].

Definition is_digit (c : ascii) : bool :=
  (48 <=? nat_of_ascii c)%nat && (nat_of_ascii c <=? 57)%nat.

(** [re.split(r'(\d+)', s)]: the non-digit runs of [s] with the digit runs
    between them, so the list starts and ends with a (possibly empty)
    non-digit run. *)
Fixpoint re_split_digits (s : string) : list string :=
  match s with
  | EmptyString => [EmptyString]
  | String c s' =>
      if is_digit c then
        match re_split_digits s' with
        | EmptyString :: d :: rest => EmptyString :: String c d :: rest
        | runs => EmptyString :: String c EmptyString :: runs
        end
      else
        match re_split_digits s' with
        | r :: rest => String c r :: rest
        | [] => [String c EmptyString]
        end
  end.

Fixpoint all_digits (s : string) : bool :=
  match s with
  | EmptyString => true
  | String c s' => is_digit c && all_digits s'
  end.

(** [c.isdigit()] *)
Definition isdigit (s : string) : bool :=
  match s with
  | EmptyString => false
  | _ => all_digits s
  end.

(** [int(c)] on a run of decimal digits. *)
Fixpoint int_digits (acc : N) (s : string) : N :=
  match s with
  | EmptyString => acc
  | String c s' => int_digits (10 * acc + (N_of_ascii c - 48))%N s'
  end.

(** An element of a sort key: a [str] or an [int]. *)
Inductive chunk : Type :=
| CStr (s : string)
| CInt (n : N).

(** [[int(c) if c.isdigit() else c for c in re.split(r'(\d+)', name)]] *)
Definition natural_key (name : string) : list chunk :=
  map (fun c => if isdigit c then CInt (int_digits 0 c) else CStr c)
      (re_split_digits name).

(** [x == y] and [x < y] on key elements; ordering a [str] against an
    [int] raises. *)
Definition chunk_eqb (x y : chunk) : bool :=
  match x, y with
  | CStr a, CStr b => String.eqb a b
  | CInt a, CInt b => N.eqb a b
  | _, _ => false
  end.

Definition chunk_lt (x y : chunk) : result bool :=
  match x, y with
  | CStr a, CStr b => Ok (String.ltb a b)
  | CInt a, CInt b => Ok (N.ltb a b)
  | _, _ => Raise TypeError
  end.

(** [a < b] on lists: the first pair of unequal elements decides, else the
    shorter list is the smaller. *)
Fixpoint key_lt (a b : list chunk) : result bool :=
  match a, b with
  | [], [] => Ok false
  | [], _ :: _ => Ok true
  | _ :: _, [] => Ok false
  | x :: a', y :: b' => if chunk_eqb x y then key_lt a' b' else chunk_lt x y
  end.

(** [sorted(..., key=natural_key)].  The sort is stable; a stable insertion
    sort computes the same list whenever no comparison raises. *)
Fixpoint insert_frame (x : string) (l : list string) : result (list string) :=
  match l with
  | [] => Ok [x]
  | y :: l' =>
      rbind (key_lt (natural_key y) (natural_key x))
        (fun y_first =>
           if y_first
           then rbind (insert_frame x l') (fun r => Ok (y :: r))
           else Ok (x :: y :: l'))
  end.

Fixpoint py_sorted (l : list string) : result (list string) :=
  match l with
  | [] => Ok []
  | x :: l' => rbind (py_sorted l') (insert_frame x)
  end.

(** Line 117: the frames of a directory whose entries are listed (in the
    order the file system gives them) as [entries]. *)
Definition list_frames (entries : list string) : result (list string) :=
  py_sorted (filter (glob_match FRAME_PATTERN) entries).

(* ================================================================== *)
(** ** Image encoder *)

Definition lower_ascii (c : ascii) : ascii :=
  let n := nat_of_ascii c in
  if ((65 <=? n) && (n <=? 90))%nat then ascii_of_nat (n + 32) else c.

Fixpoint lower (s : string) : string :=
  match s with
  | EmptyString => EmptyString
  | String c s' => String (lower_ascii c) (lower s')
  end.

Fixpoint from_last_dot (s : string) : option string :=
  match s with
  | EmptyString => None
  | String c s' =>
      match from_last_dot s' with
      | Some t => Some t
      | None => if Ascii.eqb c "." then Some s else None
      end
  end.

(** [path.suffix]: the name from its last dot on, unless that dot is the
    first or the last character. *)
Definition suffix (name : string) : string :=
  match name with
  | EmptyString => EmptyString
  | String _ rest =>
      match from_last_dot rest with
      | Some t => if (1 <? String.length t)%nat then t else EmptyString
      | None => EmptyString
      end
  end.

Definition mime_of (name : string) : string :=
  if String.eqb (lower (suffix name)) ".png" then "image/png" else "image/jpeg".

(* ================================================================== *)
(** ** Conversation driver: [main] *)

Definition message (role : string) (content : json) : json :=
  JObj [("role", JStr role); ("content", content)].

Definition text_part (text : string) : json :=
  JObj [("type", JStr "text"); ("text", JStr text)].

Definition image_part (url : string) : json :=
  JObj [("type", JStr "image_url"); ("image_url", JObj [("url", JStr url)])].

(** Lines 129-136. *)
Definition user_content (idx : nat) (uri : string) : json :=
  if Nat.eqb idx 1
  then JArr [text_part INITIAL_PROMPT; image_part uri]
  else JArr [image_part uri].

Definition system_turn : json := message "system" (JStr SYSTEM_PROMPT).
Definition summary_request : json := message "user" (JStr BIRDS_EYE_VIEW_PROMPT).

Record args : Type := {
  arg_dir : string;
  arg_model : string;
  arg_out : option string
}.

Section Driver.

Variable server : nat -> request -> http_result.

(** [base64.b64encode(f.read()).decode()] of the frame with the given
    name; [None] when opening or reading the file raises. *)
Variable read_b64 : string -> option string.

Variables api_key model : string.

Definition b64_data_uri (name : string) : M string :=
  match read_b64 name with
  | Some b64 => ret ("data:" ++ mime_of name ++ ";base64," ++ b64)%string
  | None => raise OSError
  end.

(** The [for idx, img_path in enumerate(frames, 1)] loop, from index
    [idx] on.  Besides the conversation it reports the index at which the
    loop was left by [break], if it was. *)
Fixpoint frame_loop (idx : nat) (frames : list string) (convo : list json)
  : M (list json * option nat) :=
  match frames with
  | [] => ret (convo, None)
  | name :: rest =>
      uri <- b64_data_uri name ;;
      let convo := convo ++ [message "user" (user_content idx uri)] in
      reply <- send_messages server api_key model convo 5 ;;
      if negb (truthy reply)
      then (emit (EvPrint (Frame_failed idx name)) ;; ret (convo, Some idx))
      else
        let convo := convo ++ [message "assistant" reply] in
        emit (EvPrint (Frame_reply idx name reply)) ;;
        frame_loop (S idx) rest convo
  end.

(** Lines 150-161: the bird's-eye view request. *)
Definition summarize (convo : list json) : M (list json) :=
  let convo := convo ++ [summary_request] in
  birds_eye_reply <- send_messages server api_key model convo 5 ;;
  if truthy birds_eye_reply
  then (emit (EvPrint (Birds_eye_map birds_eye_reply)) ;;
        ret (convo ++ [message "assistant" birds_eye_reply]))
  else (emit (EvPrint Birds_eye_failed) ;; ret convo).

(** Lines 121-161: the conversation about the given frames. *)
Definition converse (frames : list string) : M (list json) :=
  emit (EvPrint Prompt_sent) ;;
  r <- frame_loop 1 frames [system_turn] ;;
  summarize (fst r).

(** Lines 163-166. *)
Definition write_transcript (out : option string) (convo : list json) : M unit :=
  match out with
  | None | Some EmptyString => ret tt
  | Some path =>
      emit (EvWrite path convo) ;;
      emit (EvPrint (Transcript_written path))
  end.

End Driver.

(** [main()], given the parsed command line, the value of
    [OPENROUTER_API_KEY] and the entries of [args.dir].  The final
    conversation is returned for reference; the script itself only prints
    and writes. *)
Definition main (server : nat -> request -> http_result)
           (read_b64 : string -> option string)
           (a : args) (env_key : option string) (entries : list string)
  : M (list json) :=
  match env_key with
  | None | Some EmptyString => raise RuntimeError
  | Some api_key =>
      frames <- lift (list_frames entries) ;;
      match frames with
      | [] => raise RuntimeError
      | _ =>
          convo <- converse server read_b64 api_key (arg_model a) frames ;;
          write_transcript (arg_out a) convo ;;
          ret convo
      end
  end.

(* ================================================================== *)
(** ** Screenshot capturer (screenshot_tool.py) *)

Module Capturer.

Inductive exc : Type :=
| KeyboardInterrupt
| ValueError
| OtherError.         (* any other subclass of Exception *)

(** The outcome of one call into the operating system or a library. *)
Inductive step : Type :=
| Done
| Raises (e : exc).

Inductive event : Type :=
| Print_usage
| Print_bad_interval
| Print_start (interval : Z) (output_dir : string)
| Saved (timestamp : Z)
| Print_saved (timestamp : Z)
| Slept (seconds : Z)
| Print_stopped
| Print_error (e : exc).

(** How a call ends: it returns, or an exception leaves it. *)
Inductive ending : Type :=
| Returned
| Raised (e : exc).

(** How the process ends: [sys.exit(code)] or falling off the script
    (status 0), or an exception nobody caught. *)
Inductive process_end : Type :=
| Exit (code : Z)
| Uncaught (e : exc).

Section Machine.

(** [int(s)] *)
Variable py_int : string -> option Z.
(** [os.makedirs], [mss.mss()] and [sct.monitors[0]]. *)
Variable setup : step.
(** The calls of the n-th round of the loop, and its clock reading. *)
Variable grab : nat -> step.
Variable to_png : nat -> step.
Variable sleep : nat -> step.
Variable time : nat -> Z.

(** The two [except] clauses of lines 42-45. *)
Definition handler (e : exc) (out : list event) : ending * list event :=
  match e with
  | KeyboardInterrupt => (Returned, out ++ [Print_stopped])
  | ValueError | OtherError => (Returned, out ++ [Print_error e])
  end.

(** The [while True] loop inside the [try], from round [n] on; [None]
    when it is still running after [fuel] rounds. *)
Fixpoint capture_loop (interval : Z) (fuel n : nat) (out : list event)
  : option (ending * list event) :=
  match fuel with
  | O => None
  | S fuel' =>
      match grab n with
      | Raises e => Some (handler e out)
      | Done =>
          let timestamp := time n in
          match to_png n with
          | Raises e => Some (handler e out)
          | Done =>
              let out := out ++ [Saved timestamp; Print_saved timestamp] in
              match sleep n with
              | Raises e => Some (handler e out)
              | Done => capture_loop interval fuel' (S n) (out ++ [Slept interval])
              end
          end
      end
  end.

Definition start_screenshot_capture (interval_seconds : Z)
           (output_dir : string) (fuel : nat) (out : list event)
  : option (ending * list event) :=
  if (interval_seconds <=? 0)%Z then Some (Raised ValueError, out)
  else
    match setup with
    | Raises e => Some (Raised e, out)
    | Done =>
        capture_loop interval_seconds fuel 0
          (out ++ [Print_start interval_seconds output_dir])
    end.

(** The [__main__] block, run on [sys.argv]. *)
Definition script (argv : list string) (fuel : nat)
  : option (process_end * list event) :=
  match argv with
  | [_; interval; output_directory] =>
      match py_int interval with
      | None => Some (Exit 1, [Print_bad_interval])
      | Some capture_interval =>
          match start_screenshot_capture capture_interval
                  output_directory fuel [] with
          | None => None
          | Some (Returned, out) => Some (Exit 0, out)
          | Some (Raised ValueError, out) =>
              Some (Exit 1, out ++ [Print_bad_interval])
          | Some (Raised e, out) => Some (Uncaught e, out)
          end
      end
  | _ => Some (Exit 1, [Print_usage])
  end.

(** The first exception raised in round [n], if any. *)
Definition round_raises (n : nat) : option exc :=
  match grab n, to_png n, sleep n with
  | Raises e, _, _ => Some e
  | Done, Raises e, _ => Some e
  | Done, Done, Raises e => Some e
  | Done, Done, Done => None
  end.

End Machine.

(** An exit counts as a failure unless the status is 0. *)
Definition is_failure (e : process_end) : bool :=
  match e with
  | Exit code => negb (Z.eqb code 0)
  | Uncaught _ => true
  end.

(** The line printed by the [except] clause that handles [e]. *)
Definition last_words (e : exc) : event :=
  match e with
  | KeyboardInterrupt => Print_stopped
  | _ => Print_error e
  end.

(** A machine for examples: every call works, except that [grab] raises
    [e] in round [k]; the clock starts at [t0] and gains [interval]
    seconds a round. *)
Definition grab_fails_at (k : nat) (e : exc) : nat -> step :=
  fun n => if Nat.eqb n k then Raises e else Done.

Definition works : nat -> step := fun _ => Done.

Definition clock (t0 interval : Z) : nat -> Z :=
  fun n => (t0 + interval * Z.of_nat n)%Z.

Definition int_of_one : string -> option Z :=
  fun s => if String.eqb s "1" then Some 1%Z else None.

End Capturer.

(* ================================================================== *)
(** ** Vocabulary of the statements *)

(** What the [try] block makes of a response: a returned value or a raised
    exception.  (The world only receives log entries, see
    [handle_response_logs_only].) *)
Definition outcome (h : http_result) : result json :=
  fst (handle_response h world0).

(** The attempt ends in an exception that the [except] clause catches, so
    that it is logged and, while attempts remain, retried after a sleep. *)
Definition retryable_failure (h : http_result) : bool :=
  match outcome h with
  | Raise e => caught e
  | Ok _ => false
  end.

(** A computation that only appends log entries to the trace. *)
Definition logs_only {A} (c : M A) : Prop :=
  exists r logs,
    posts_of logs = [] /\ sleeps_of logs = [] /\ writes_of logs = [] /\
    forall w, c w = (r, {| posts := posts w; trace := trace w ++ logs |}).

Definition mk_request (api_key model : string) (messages : list json) : request :=
  {| req_api_key := api_key; req_model := model; req_messages := messages |}.

(** The endpoint that gives the same answer to every request. *)
Definition always (h : http_result) : nat -> request -> http_result :=
  fun _ _ => h.

(** The well-formed success body [{"choices": [{"message": {"content": c}}]}]. *)
Definition reply_body (content : json) : json :=
  JObj [("choices", JArr [JObj [("message", JObj [("content", content)])]])].

(** An error body [{"error": {"code": code}}]. *)
Definition error_body (code : json) : json :=
  JObj [("error", JObj [("code", code)])].

(** The data URI of the frame [name] whose bytes encode to [b64]. *)
Definition data_uri_of (name b64 : string) : string :=
  ("data:" ++ mime_of name ++ ";base64," ++ b64)%string.

(** The user turn of the frame numbered [idx]. *)
Definition user_turn (idx : nat) (name b64 : string) : json :=
  message "user" (user_content idx (data_uri_of name b64)).

Definition role_of (turn : json) : option string :=
  match turn with
  | JObj m => match assoc "role" m with
              | Some (JStr r) => Some r
              | _ => None
              end
  | _ => None
  end.

(** The turns that a run of the frame loop appends, frame by frame: a user
    turn and an assistant turn with a reply that counts as true for every
    frame answered, and a lone user turn for the frame at which the loop is
    left, if it is. *)
Inductive loop_turns (read_b64 : string -> option string)
  : nat -> list string -> list json -> option nat -> Prop :=
| turns_done idx :
    loop_turns read_b64 idx [] [] None
| turns_halt idx name rest b64 :
    read_b64 name = Some b64 ->
    loop_turns read_b64 idx (name :: rest) [user_turn idx name b64] (Some idx)
| turns_step idx name rest b64 reply ts halted :
    read_b64 name = Some b64 ->
    truthy reply = true ->
    loop_turns read_b64 (S idx) rest ts halted ->
    loop_turns read_b64 idx (name :: rest)
      (user_turn idx name b64 :: message "assistant" reply :: ts) halted.

(** An endpoint that fails the first [n] requests with a 500 and answers
    the later ones with the given text. *)
Definition fails_then_replies (n : nat) (text : string)
  : nat -> request -> http_result :=
  fun k _ => if (k <? n)%nat then Response 500 None
             else Response 200 (Some (reply_body (JStr text))).

(** The form of the list that [re.split] gives: non-digit runs (for which
    [isdigit] is false) with digit runs between them. *)
Inductive runs_shape : list string -> Prop :=
| runs_last r : isdigit r = false -> runs_shape [r]
| runs_cons r d rest :
    isdigit r = false -> isdigit d = true -> runs_shape rest ->
    runs_shape (r :: d :: rest).

(** The form of a sort key: strings with integers between them. *)
Inductive key_shape : list chunk -> Prop :=
| shape_last s : key_shape [CStr s]
| shape_cons s n rest : key_shape rest -> key_shape (CStr s :: CInt n :: rest).

(** A three-way comparison of keys that agrees with [key_lt] wherever that
    does not raise; it serves to reason about the order. *)
Definition chunk_cmp (x y : chunk) : comparison :=
  match x, y with
  | CStr a, CStr b => String.compare a b
  | CInt a, CInt b => N.compare a b
  | CStr _, CInt _ => Lt
  | CInt _, CStr _ => Gt
  end.

Fixpoint key_cmp (a b : list chunk) : comparison :=
  match a, b with
  | [], [] => Eq
  | [], _ :: _ => Lt
  | _ :: _, [] => Gt
  | x :: a', y :: b' =>
      match chunk_cmp x y with
      | Eq => key_cmp a' b'
      | c => c
      end
  end.

Definition is_lt (c : comparison) : bool :=
  match c with Lt => true | _ => false end.

(** [a] may stand before [b] in a sorted list: comparing their keys with
    [b] on the left answers that [b] is not the smaller. *)
Definition frame_le (a b : string) : Prop :=
  key_lt (natural_key b) (natural_key a) = Ok false.

Definition same_key (k : list chunk) (name : string) : bool :=
  match key_cmp k (natural_key name) with Eq => true | _ => false end.



(** *** Further vocabulary *)

Definition prints_of (t : list event) : list printed :=
  flat_map (fun e => match e with EvPrint p => [p] | _ => [] end) t.

(** The seconds slept in all, over a list of sleeps. *)
Definition total_sleep (l : list Q) : Q := fold_right Qplus 0%Q l.

Definition is_error_log (e : event) : Prop :=
  match e with EvLogError _ => True | _ => False end.

(** The exceptions that can leave [send_messages]. *)
Definition escapes (e : exn) : Prop :=
  e = TypeError \/ e = IndexError \/ e = AttributeError.

Definition is_prefix (p l : list json) : Prop := exists rest, l = p ++ rest.



Fixpoint no_dots (s : string) : bool :=
  match s with
  | EmptyString => true
  | String c s' => negb (Ascii.eqb c ".") && no_dots s'
  end.

(** The screenshots written in a run of the capturer, by timestamp. *)
Definition saved_of (out : list Capturer.event) : list Z :=
  flat_map (fun e => match e with Capturer.Saved t => [t] | _ => [] end) out.

(* ================================================================== *)
(** ** Properties of the remote chat client *)

Lemma world_eta (w : world) : {| posts := posts w; trace := trace w |} = w.
Proof. destruct w; reflexivity. Qed.

Lemma posts_of_app (a b : list event) : posts_of (a ++ b) = posts_of a ++ posts_of b.
Proof. apply flat_map_app. Qed.

Lemma sleeps_of_app (a b : list event) : sleeps_of (a ++ b) = sleeps_of a ++ sleeps_of b.
Proof. apply flat_map_app. Qed.

Lemma writes_of_app (a b : list event) : writes_of (a ++ b) = writes_of a ++ writes_of b.
Proof. apply flat_map_app. Qed.

Lemma logs_only_ret {A} (a : A) : logs_only (ret a).
Proof.
  exists (Ok a), []. repeat split.
  intros w. unfold ret. now rewrite app_nil_r, world_eta.
Qed.

Lemma logs_only_raise {A} (e : exn) : logs_only (@raise A e).
Proof.
  exists (Raise e), []. repeat split.
  intros w. unfold raise. now rewrite app_nil_r, world_eta.
Qed.

Lemma logs_only_lift {A} (r : result A) : logs_only (lift r).
Proof.
  exists r, []. repeat split.
  intros w. unfold lift. now rewrite app_nil_r, world_eta.
Qed.

Lemma logs_only_log_error (m : log_msg) : logs_only (emit (EvLogError m)).
Proof. exists (Ok tt), [EvLogError m]. repeat split. Qed.

Lemma logs_only_bind {A B} (c : M A) (k : A -> M B) :
  logs_only c -> (forall a, logs_only (k a)) -> logs_only (bind c k).
Proof.
  intros (r & l1 & Hp & Hs & Hw & Hc) Hk.
  destruct r as [a|e].
  - destruct (Hk a) as (r2 & l2 & Hp2 & Hs2 & Hw2 & Hk2).
    exists r2, (l1 ++ l2).
    rewrite posts_of_app, sleeps_of_app, writes_of_app, Hp, Hs, Hw, Hp2, Hs2, Hw2.
    repeat split. intros w. unfold bind. rewrite Hc, Hk2. simpl.
    now rewrite app_assoc.
  - exists (Raise e), l1. repeat split; trivial.
    intros w. unfold bind. now rewrite Hc.
Qed.

Ltac logs_only_tac :=
  repeat first
    [ apply logs_only_ret
    | apply logs_only_raise
    | apply logs_only_lift
    | apply logs_only_log_error
    | apply logs_only_bind; [ | intros ]
    | match goal with
      | |- logs_only (if ?c then _ else _) => destruct c
      | |- logs_only (match ?x with _ => _ end) => destruct x
      end ].

Lemma handle_response_logs_only (h : http_result) : logs_only (handle_response h).
Proof.
  destruct h as [|status body]; unfold handle_response, raise_for_status, r_json;
    logs_only_tac.
Qed.

(** The response alone decides how the [try] block ends. *)
Lemma handle_response_outcome (h : http_result) :
  exists logs,
    posts_of logs = [] /\ sleeps_of logs = [] /\ writes_of logs = [] /\
    forall w, handle_response h w =
              (outcome h, {| posts := posts w; trace := trace w ++ logs |}).
Proof.
  destruct (handle_response_logs_only h) as (r & logs & Hp & Hs & Hw & Hc).
  exists logs. repeat split; trivial.
  intros w. unfold outcome. rewrite (Hc world0). simpl. apply Hc.
Qed.

Section ClientFacts.

Variable server : nat -> request -> http_result.

Lemma attempt_run (rq : request) (w : world) :
  exists logs,
    posts_of logs = [] /\ sleeps_of logs = [] /\ writes_of logs = [] /\
    attempt server rq w =
      (outcome (server (posts w) rq),
       {| posts := S (posts w); trace := trace w ++ EvPost rq :: logs |}).
Proof.
  destruct (handle_response_outcome (server (posts w) rq))
    as (logs & Hp & Hs & Hw & Hc).
  exists logs. repeat split; trivial.
  unfold attempt, bind, session_post. rewrite Hc. simpl.
  now rewrite <- app_assoc.
Qed.

(** When every remaining attempt fails retryably, the loop uses them all
    up and sleeps between them, not after the last. *)
Lemma send_loop_exhausts (attempts : nat) (rq : request) :
  forall n i w,
    i + n = S attempts ->
    (forall j, j < n -> retryable_failure (server (posts w + j) rq) = true) ->
    exists w',
      send_loop server attempts (seq i n) rq w = (Ok JNull, w') /\
      posts w' = posts w + n /\
      posts_of (trace w') = posts_of (trace w) ++ repeat rq n /\
      sleeps_of (trace w') = sleeps_of (trace w) ++ map backoff (seq i (n - 1)) /\
      writes_of (trace w') = writes_of (trace w).
Proof.
  induction n as [|n IH]; intros i w Hi Hfail.
  - exists w. simpl. rewrite !app_nil_r. repeat split; lia.
  - destruct (attempt_run rq w) as (logs & Hp & Hs & Hw & Hrun).
    pose proof (Hfail 0 ltac:(lia)) as H0. rewrite Nat.add_0_r in H0.
    unfold retryable_failure in H0.
    destruct (outcome (server (posts w) rq)) as [v|e] eqn:Hout; [discriminate|].
    cbn [seq send_loop]. unfold try_except. rewrite Hrun, H0.
    unfold bind at 1, emit at 1. cbn [posts trace].
    destruct (Nat.eqb_spec i attempts) as [Heq|Hne].
    + assert (n = 0) by lia. subst n.
      eexists. unfold bind, emit, ret; cbn [posts trace].
      split; [reflexivity|]. cbn [posts trace].
      rewrite !posts_of_app, !sleeps_of_app, !writes_of_app. simpl.
      rewrite Hp, Hs, Hw. simpl. rewrite !app_nil_r.
      repeat split; lia.
    + destruct n as [|n]; [lia|].
      unfold bind at 1, emit at 1. cbn [posts trace].
      edestruct (IH (S i)) as (w' & Hloop & Hposts & Hpo & Hsl & Hwr);
        [ | | rewrite Hloop ].
      * lia.
      * intros j Hj. cbn [posts].
        replace (S (posts w) + j) with (posts w + S j) by lia.
        apply Hfail. lia.
      * exists w'. split; [reflexivity|].
        rewrite Hposts, Hpo, Hsl, Hwr. cbn [posts trace].
        rewrite !posts_of_app, !sleeps_of_app, !writes_of_app. simpl.
        rewrite Hp, Hs, Hw. simpl. rewrite !app_nil_r.
        replace (S n - 0) with (S n) by lia.
        replace (n - 0) with n by lia.
        rewrite <- !app_assoc. simpl.
        repeat split; try lia.
Qed.

(** The loop only adds to the trace, and a loop with an attempt left
    starts by posting the request. *)
Lemma send_loop_extends (attempts : nat) (rq : request) (todo : list nat) :
  forall w,
    exists t,
      trace (snd (send_loop server attempts todo rq w)) = trace w ++ t /\
      (todo <> [] -> exists t', t = EvPost rq :: t').
Proof.
  induction todo as [|i rest IH]; intros w.
  - exists []. cbn. rewrite app_nil_r. split; [reflexivity | congruence].
  - destruct (attempt_run rq w) as (logs & _ & _ & _ & Hrun).
    cbn [send_loop]. unfold try_except. rewrite Hrun.
    destruct (outcome (server (posts w) rq)) as [v|e].
    + exists (EvPost rq :: logs). split; [reflexivity | eauto].
    + destruct (caught e).
      * unfold bind at 1, emit at 1. cbn [posts trace].
        destruct (Nat.eqb i attempts).
        -- eexists. cbn. rewrite <- !app_assoc. cbn. split; [reflexivity | eauto].
        -- unfold bind at 1, emit at 1. cbn [posts trace].
           match goal with
           | |- context [send_loop _ _ _ _ ?w2] => destruct (IH w2) as (t & -> & _)
           end.
           cbn [trace]. eexists. rewrite <- !app_assoc. cbn.
           split; [reflexivity | eauto].
      * exists (EvPost rq :: logs). split; [reflexivity | eauto].
Qed.

End ClientFacts.

Lemma backoff_value (i : nat) : (backoff i == 0.5 * 2 ^ Z.of_nat i)%Q.
Proof.
  unfold backoff.
  rewrite Zpower_Qpower by lia.
  change (inject_Z 2) with 2%Q.
  setoid_replace (1 # 2)%Q with 0.5%Q by reflexivity.
  ring.
Qed.

Lemma retryable_status_fails (s : Z) (body : option json) :
  In s RETRYABLE_STATUSES -> retryable_failure (Response s body) = true.
Proof.
  intros H. simpl in H.
  destruct H as [<-|[<-|[<-|[<-|[]]]]]; reflexivity.
Qed.

Lemma client_error_fails (s : Z) (body : option json) :
  (400 <= s < 500)%Z -> outcome (Response s body) = Raise (HTTPError s).
Proof.
  intros Hs.
  assert (H1 : ((400 <=? s) && (s <? 500))%Z = true)
    by (apply andb_true_iff; split; [apply Z.leb_le | apply Z.ltb_lt]; lia).
  assert (H2 : ((400 <=? s) && (s <? 600))%Z = true)
    by (apply andb_true_iff; split; [apply Z.leb_le | apply Z.ltb_lt]; lia).
  unfold outcome, handle_response, raise_for_status.
  rewrite H1, H2. reflexivity.
Qed.

Lemma malformed_json_fails (s : Z) :
  (200 <= s < 300)%Z -> outcome (Response s None) = Raise JSONDecodeError.
Proof.
  intros Hs.
  assert (H1 : ((400 <=? s) && (s <? 500))%Z = false)
    by (apply andb_false_iff; left; apply Z.leb_gt; lia).
  assert (H2 : in_statuses s RETRYABLE_STATUSES = false).
  { unfold in_statuses, RETRYABLE_STATUSES. simpl.
    repeat (rewrite (proj2 (Z.eqb_neq _ _)) by lia). reflexivity. }
  unfold outcome, handle_response. rewrite H1, H2. reflexivity.
Qed.

Lemma success_status_passes (s : Z) :
  (200 <= s < 300)%Z ->
  ((400 <=? s) && (s <? 500))%Z = false /\ in_statuses s RETRYABLE_STATUSES = false.
Proof.
  intros Hs. split.
  - apply andb_false_iff; left; apply Z.leb_gt; lia.
  - unfold in_statuses, RETRYABLE_STATUSES. simpl.
    repeat (rewrite (proj2 (Z.eqb_neq _ _)) by lia). reflexivity.
Qed.

(** A dictionary without the key on the path to the reply text. *)
Lemma missing_field_fails (s : Z) (m : list (string * json)) :
  (200 <= s < 300)%Z ->
  assoc "error" m = None -> assoc "choices" m = None ->
  outcome (Response s (Some (JObj m))) = Raise KeyError.
Proof.
  intros Hs He Hc. destruct (success_status_passes s Hs) as [H1 H2].
  unfold outcome, handle_response. rewrite H1, H2.
  unfold bind, ret, lift, r_json, py_in, py_getitem. simpl.
  rewrite He, Hc. reflexivity.
Qed.

Section FirstAttempt.

Variable server : nat -> request -> http_result.
Variables api_key model : string.
Variable messages : list json.

(** The first pass through the loop, by the outcome of its attempt. *)
Lemma send_messages_first (n : nat) (w : world) :
  exists logs,
    posts_of logs = [] /\ sleeps_of logs = [] /\ writes_of logs = [] /\
    let rq := mk_request api_key model messages in
    let t1 := trace w ++ EvPost rq :: logs in
    send_messages server api_key model messages (S n) w =
    match outcome (server (posts w) rq) with
    | Ok v => (Ok v, {| posts := S (posts w); trace := t1 |})
    | Raise e =>
        if caught e then
          match n with
          | O => (Ok JNull,
                  {| posts := S (posts w);
                     trace := (t1 ++ [EvLogWarning (Attempt_failed 1 1 e)])
                                ++ [EvLogError (All_attempts_failed 1 e)] |})
          | S _ => send_loop server (S n) (seq 2 n) rq
                     {| posts := S (posts w);
                        trace := (t1 ++ [EvLogWarning (Attempt_failed 1 (S n) e)])
                                   ++ [EvSleep (backoff 1)] |}
          end
        else (Raise e, {| posts := S (posts w); trace := t1 |})
    end.
Proof.
  destruct (attempt_run server (mk_request api_key model messages) w)
    as (logs & Hp & Hs & Hw & Hrun).
  exists logs. repeat split; trivial.
  unfold send_messages. fold (mk_request api_key model messages).
  cbn [seq send_loop]. unfold try_except. rewrite Hrun. cbv zeta.
  destruct (outcome (server (posts w) (mk_request api_key model messages)))
    as [v|e]; [reflexivity|].
  destruct (caught e); [|reflexivity].
  destruct n as [|n]; reflexivity.
Qed.

End FirstAttempt.

(** C3.  When every attempt of a call fails with a retryable error,
    [send_messages] returns [None] after exactly [attempts] POSTs and
    [attempts - 1] sleeps, the i-th of them lasting [0.5 * 2^i] seconds;
    the retryable statuses 500, 502, 503 and 504 are such failures. *)
Theorem exhausted_attempts_backoff
        (server : nat -> request -> http_result) (api_key model : string)
        (messages : list json) (attempts : nat) (w : world) :
  (forall j, j < attempts ->
     retryable_failure
       (server (posts w + j) (mk_request api_key model messages)) = true) ->
  exists w',
    send_messages server api_key model messages attempts w = (Ok JNull, w') /\
    posts_of (trace w') =
      posts_of (trace w) ++ repeat (mk_request api_key model messages) attempts /\
    sleeps_of (trace w') = sleeps_of (trace w) ++ map backoff (seq 1 (attempts - 1)) /\
    (forall i, (backoff i == 0.5 * 2 ^ Z.of_nat i)%Q) /\
    (forall s body, In s RETRYABLE_STATUSES ->
                    retryable_failure (Response s body) = true).
Proof.
  intros Hfail.
  destruct (send_loop_exhausts server attempts
              (mk_request api_key model messages) attempts 1 w)
    as (w' & Hrun & _ & Hp & Hs & _); [lia | exact Hfail |].
  exists w'. repeat split; trivial.
  - apply backoff_value.
  - apply retryable_status_fails.
Qed.

Lemma exhausted_attempts_backoff_witness :
  exists w',
    send_messages (always (Response 500 None)) "key" "model" [] 5 world0
      = (Ok JNull, w') /\
    posts_of (trace w') =
      posts_of (trace world0) ++ repeat (mk_request "key" "model" []) 5 /\
    sleeps_of (trace w') =
      sleeps_of (trace world0) ++ map backoff (seq 1 (5 - 1)) /\
    (forall i, (backoff i == 0.5 * 2 ^ Z.of_nat i)%Q) /\
    (forall s body, In s RETRYABLE_STATUSES ->
                    retryable_failure (Response s body) = true).
Proof.
  apply (exhausted_attempts_backoff (always (Response 500 None)) "key" "model" [] 5 world0).
  intros j _. reflexivity.
Defined.

(** C2.  A 4xx response is logged and then raised as an [HTTPError], which
    the [except] clause of the same [try] catches: persistent 4xx responses
    use up all [attempts] POSTs with [attempts - 1] backoff sleeps between
    them, exactly as a retryable failure does. *)
Theorem client_error_is_retried
        (server : nat -> request -> http_result) (api_key model : string)
        (messages : list json) (attempts : nat) (status : Z) (w : world) :
  (400 <= status < 500)%Z ->
  (forall j, j < attempts ->
     exists body,
       server (posts w + j) (mk_request api_key model messages)
       = Response status body) ->
  exists w',
    send_messages server api_key model messages attempts w = (Ok JNull, w') /\
    posts_of (trace w') =
      posts_of (trace w) ++ repeat (mk_request api_key model messages) attempts /\
    sleeps_of (trace w') = sleeps_of (trace w) ++ map backoff (seq 1 (attempts - 1)).
Proof.
  intros Hs Hsrv.
  destruct (send_loop_exhausts server attempts
              (mk_request api_key model messages) attempts 1 w)
    as (w' & Hrun & _ & Hp & Hsl & _); [lia | |].
  - intros j Hj. destruct (Hsrv j Hj) as [body ->].
    unfold retryable_failure. now rewrite client_error_fails.
  - exists w'. repeat split; trivial.
Qed.

Lemma client_error_is_retried_witness :
  exists w',
    send_messages (always (Response 404 None)) "key" "model" [] 5 world0
      = (Ok JNull, w') /\
    posts_of (trace w') =
      posts_of (trace world0) ++ repeat (mk_request "key" "model" []) 5 /\
    sleeps_of (trace w') = sleeps_of (trace world0) ++ map backoff (seq 1 (5 - 1)).
Proof.
  apply (client_error_is_retried (always (Response 404 None)) "key" "model" [] 5 404 world0).
  - lia.
  - intros j _. exists None. reflexivity.
Defined.

(** The run on persistent 404s, spelled out: five POSTs, five logged client
    errors, four sleeps of 1, 2, 4 and 8 seconds. *)
Example not_found_five_attempts :
  let r := send_messages (always (Response 404 None)) "key" "model" [] 5 world0 in
  fst r = Ok JNull /\
  List.length (posts_of (trace (snd r))) = 5 /\
  client_errors_logged (trace (snd r)) = [404; 404; 404; 404; 404]%Z /\
  sleeps_of (trace (snd r)) = [2 # 2; 4 # 2; 8 # 2; 16 # 2]%Q.
Proof. vm_compute. repeat split. Qed.

(** C4.  Well-formed JSON bodies that make the extraction fail with an
    exception outside the [except] tuple: an empty [choices] list
    ([IndexError]), a body that is [null] ([TypeError]) and an error that is
    a string instead of an object ([AttributeError]).  Each leaves
    [send_messages] as an exception on the first attempt, whatever the
    number of attempts. *)
Theorem extraction_errors_escape
        (api_key model : string) (messages : list json) (n : nat) (w : world) :
  fst (send_messages
         (always (Response 200 (Some (JObj [("choices", JArr [])]))))
         api_key model messages (S n) w) = Raise IndexError /\
  fst (send_messages (always (Response 200 (Some JNull)))
         api_key model messages (S n) w) = Raise TypeError /\
  fst (send_messages
         (always (Response 200 (Some (JObj [("error", JStr "overloaded")]))))
         api_key model messages (S n) w) = Raise AttributeError.
Proof.
  unfold send_messages. cbn [seq send_loop].
  split; [|split]; reflexivity.
Qed.

(** The part of C4 that holds: a body that does not parse, and a dictionary
    that lacks a key on the way to the reply, are retryable failures. *)
Lemma parse_and_missing_key_are_retryable (s : Z) (m : list (string * json)) :
  (200 <= s < 300)%Z ->
  retryable_failure (Response s None) = true /\
  (assoc "error" m = None -> assoc "choices" m = None ->
   retryable_failure (Response s (Some (JObj m))) = true).
Proof.
  intros Hs. unfold retryable_failure. split.
  - now rewrite malformed_json_fails.
  - intros He Hc. now rewrite missing_field_fails.
Qed.





(** The two provider codes of the specification's example, run to the end:
    529 is retried until the five attempts are spent, 400 is not retried. *)
Example provider_codes_529_and_400 :
  let run code := send_messages (always (Response 200 (Some (error_body (JNum code)))))
                    "key" "model" [] 5 world0 in
  (fst (run (529 # 1)%Q) = Ok JNull /\
   List.length (posts_of (trace (snd (run (529 # 1)%Q)))) = 5 /\
   List.length (sleeps_of (trace (snd (run (529 # 1)%Q)))) = 4) /\
  (fst (run (400 # 1)%Q) = Ok JNull /\
   List.length (posts_of (trace (snd (run (400 # 1)%Q)))) = 1 /\
   sleeps_of (trace (snd (run (400 # 1)%Q))) = []).
Proof. vm_compute. repeat split. Qed.

(* ================================================================== *)
(** ** Properties of the conversation driver *)

Section DriverFacts.

Variable server : nat -> request -> http_result.
Variable read_b64 : string -> option string.
Variables api_key model : string.

Lemma frame_loop_turns (frames : list string) :
  forall idx convo w convo' halted w',
    frame_loop server read_b64 api_key model idx frames convo w
      = (Ok (convo', halted), w') ->
    exists ts, convo' = convo ++ ts /\ loop_turns read_b64 idx frames ts halted.
Proof.
  induction frames as [|name rest IH]; intros idx convo w convo' halted w' H.
  - cbn in H. injection H as <- <- <-.
    exists []. split; [now rewrite app_nil_r | constructor].
  - cbn [frame_loop] in H. unfold b64_data_uri in H.
    destruct (read_b64 name) as [b64|] eqn:Hread; [|discriminate H].
    unfold bind at 1, ret at 1 in H.
    fold (data_uri_of name b64) in H. fold (user_turn idx name b64) in H.
    unfold bind at 1 in H.
    destruct (send_messages server api_key model
                (convo ++ [user_turn idx name b64]) 5 w) as [[reply|e] w1];
      [|discriminate H].
    destruct (truthy reply) eqn:Htruth; cbn [negb] in H.
    + unfold bind at 1, emit at 1 in H.
      apply IH in H. destruct H as (ts & -> & Hts).
      exists (user_turn idx name b64 :: message "assistant" reply :: ts).
      split; [now rewrite <- !app_assoc | now apply turns_step].
    + unfold bind, emit, ret in H. injection H as <- <- <-.
      exists [user_turn idx name b64]. split; [reflexivity | now apply turns_halt].
Qed.

Lemma loop_turns_complete idx frames ts :
  loop_turns read_b64 idx frames ts None ->
  List.length ts = 2 * List.length frames /\
  map role_of ts = concat (repeat [Some "user"; Some "assistant"] (List.length frames)).
Proof.
  intros H. remember None as h eqn:Hh. induction H; try discriminate.
  - split; reflexivity.
  - destruct (IHloop_turns Hh) as [Hl Hr]. split.
    + cbn [List.length]. lia.
    + cbn [List.length repeat concat map]. rewrite Hr. reflexivity.
Qed.

Lemma loop_turns_user idx frames ts halted :
  loop_turns read_b64 idx frames ts halted ->
  forall k name,
    nth_error frames k = Some name ->
    2 * k < List.length ts ->
    exists b64,
      read_b64 name = Some b64 /\
      nth_error ts (2 * k) = Some (user_turn (idx + k) name b64).
Proof.
  induction 1 as [idx|idx name0 rest b64 Hread|idx name0 rest b64 reply ts halted Hread Ht Hts IH];
    intros k name Hk Hlen.
  - destruct k; discriminate.
  - destruct k as [|k]; [|cbn in Hlen; lia].
    injection Hk as <-. exists b64. rewrite Nat.add_0_r. split; [assumption|reflexivity].
  - destruct k as [|k].
    + injection Hk as <-. exists b64. rewrite Nat.add_0_r. split; [assumption|reflexivity].
    + cbn [nth_error] in Hk.
      destruct (IH k name Hk) as (b & Hb & Hn); [cbn [List.length] in Hlen; lia|].
      exists b. split; [assumption|].
      replace (2 * S k) with (S (S (2 * k))) by lia. cbn [nth_error].
      rewrite Hn. do 2 f_equal. lia.
Qed.

(** When the loop is left at frame [k], the later frames contribute no
    turn: the appended turns are the exchanges of frames [idx .. k-1] and
    the user turn of frame [k]. *)
Lemma loop_turns_halted idx frames ts k :
  loop_turns read_b64 idx frames ts (Some k) ->
  idx <= k < idx + List.length frames /\
  List.length ts = 2 * (k - idx) + 1.
Proof.
  intros H. remember (Some k) as h eqn:Hh. induction H; try discriminate.
  - injection Hh as ->. cbn [List.length]. split; lia.
  - destruct (IHloop_turns Hh) as [Hk Hl]. cbn [List.length]. split; lia.
Qed.

(** The loop's way of leaving does not matter to what follows it: the
    summary is requested after a [break] as well. *)
Lemma converse_summarizes_regardless frames w convo halted w1 :
  frame_loop server read_b64 api_key model 1 frames [system_turn]
    {| posts := posts w; trace := trace w ++ [EvPrint Prompt_sent] |}
    = (Ok (convo, halted), w1) ->
  converse server read_b64 api_key model frames w
    = summarize server api_key model convo w1.
Proof.
  intros H. unfold converse, bind at 1, emit at 1, bind at 1.
  rewrite H. reflexivity.
Qed.

(** In every run in which the loop is left at some frame, the next thing
    the driver does is to post the conversation with the bird's-eye view
    request appended. *)
Lemma halted_run_posts_summary frames w convo k w1 :
  frame_loop server read_b64 api_key model 1 frames [system_turn]
    {| posts := posts w; trace := trace w ++ [EvPrint Prompt_sent] |}
    = (Ok (convo, Some k), w1) ->
  exists t,
    trace (snd (converse server read_b64 api_key model frames w))
    = trace w1
      ++ EvPost (mk_request api_key model (convo ++ [summary_request])) :: t.
Proof.
  intros H. rewrite (converse_summarizes_regardless _ _ _ _ _ H).
  unfold summarize, bind at 1, send_messages.
  fold (mk_request api_key model (convo ++ [summary_request])).
  destruct (send_loop_extends server 5
              (mk_request api_key model (convo ++ [summary_request]))
              (seq 1 5) w1) as (t & Ht & Hpost).
  destruct Hpost as (t' & ->); [discriminate|].
  destruct (send_loop server 5 (seq 1 5) _ w1) as [[v|e] w2]; cbn [snd] in Ht.
  - destruct (truthy v); unfold bind, emit, ret; cbn [snd trace];
      rewrite Ht, <- app_assoc; cbn; eauto.
  - cbn [snd]. rewrite Ht. eauto.
Qed.

End DriverFacts.

(** C6.  When the frame loop runs through all [N] frames, the conversation
    holds [1 + 2N] turns, the system turn followed by [N] user/assistant
    pairs; a summary reply that counts as true then brings it to
    [1 + 2N + 2] turns. *)
Theorem conversation_growth
        (server : nat -> request -> http_result)
        (read_b64 : string -> option string) (api_key model : string)
        (frames : list string) (w w1 : world) (convo : list json) :
  frame_loop server read_b64 api_key model 1 frames [system_turn] w
    = (Ok (convo, None), w1) ->
  List.length convo = 1 + 2 * List.length frames /\
  map role_of convo =
    Some "system" :: concat (repeat [Some "user"; Some "assistant"]
                                    (List.length frames)) /\
  forall v w2,
    send_messages server api_key model (convo ++ [summary_request]) 5 w1
      = (Ok v, w2) ->
    truthy v = true ->
    exists convo' w3,
      summarize server api_key model convo w1 = (Ok convo', w3) /\
      convo' = convo ++ [summary_request; message "assistant" v] /\
      List.length convo' = 1 + 2 * List.length frames + 2.
Proof.
  intros H. apply frame_loop_turns in H. destruct H as (ts & -> & Hts).
  apply loop_turns_complete in Hts. destruct Hts as [Hlen Hroles].
  split; [cbn [List.length app]; lia|].
  split; [cbn [map app]; now rewrite Hroles|].
  intros v w2 Hsend Hv.
  unfold summarize, bind at 1. rewrite Hsend, Hv.
  eexists. eexists. split; [reflexivity|]. split.
  - now rewrite <- app_assoc.
  - rewrite !length_app. cbn [List.length app]. lia.
Qed.

Lemma conversation_growth_witness :
  exists convo w1,
    frame_loop (always (Response 200 (Some (reply_body (JStr "seen")))))
      (fun _ => Some "QUJD") "key" "model" 1 ["a.png"; "b.jpg"] [system_turn] world0
      = (Ok (convo, None), w1) /\
    List.length convo = 1 + 2 * 2 /\
    map role_of convo =
      Some "system" :: concat (repeat [Some "user"; Some "assistant"] 2) /\
    forall v w2,
      send_messages (always (Response 200 (Some (reply_body (JStr "seen")))))
        "key" "model" (convo ++ [summary_request]) 5 w1 = (Ok v, w2) ->
      truthy v = true ->
      exists convo' w3,
        summarize (always (Response 200 (Some (reply_body (JStr "seen")))))
          "key" "model" convo w1 = (Ok convo', w3) /\
        convo' = convo ++ [summary_request; message "assistant" v] /\
        List.length convo' = 1 + 2 * 2 + 2.
Proof.
  eexists. eexists. split.
  - vm_compute. reflexivity.
  - apply (conversation_growth
             (always (Response 200 (Some (reply_body (JStr "seen")))))
             (fun _ => Some "QUJD") "key" "model" ["a.png"; "b.jpg"] world0).
    vm_compute. reflexivity.
Defined.

(** C7.  In the conversation of a run of the frame loop, the user turn of
    frame number [k + 1] sits at position [1 + 2k]; for the first frame its
    content is the instruction text followed by the image, for every later
    frame it is the image alone. *)
Theorem user_turn_contents
        (server : nat -> request -> http_result)
        (read_b64 : string -> option string) (api_key model : string)
        (frames : list string) (w w1 : world) (convo : list json)
        (halted : option nat) :
  frame_loop server read_b64 api_key model 1 frames [system_turn] w
    = (Ok (convo, halted), w1) ->
  forall k name,
    nth_error frames k = Some name ->
    1 + 2 * k < List.length convo ->
    exists b64,
      read_b64 name = Some b64 /\
      nth_error convo (1 + 2 * k) =
        Some (message "user"
                (JArr (match k with
                       | O => [text_part INITIAL_PROMPT;
                               image_part (data_uri_of name b64)]
                       | S _ => [image_part (data_uri_of name b64)]
                       end))).
Proof.
  intros H k name Hk Hlen.
  apply frame_loop_turns in H. destruct H as (ts & -> & Hts).
  destruct (loop_turns_user read_b64 1 frames ts halted Hts k name Hk)
    as (b64 & Hread & Hnth); [cbn [List.length app] in Hlen; lia|].
  exists b64. split; [assumption|].
  cbn [app]. replace (1 + 2 * k) with (S (2 * k)) by lia. cbn [nth_error].
  rewrite Hnth. unfold user_turn, user_content.
  destruct k; reflexivity.
Qed.

Lemma user_turn_contents_witness :
  exists convo w1,
    frame_loop (always (Response 200 (Some (reply_body (JStr "seen")))))
      (fun _ => Some "QUJD") "key" "model" 1 ["a.png"; "b.jpg"] [system_turn] world0
      = (Ok (convo, None), w1) /\
    exists b64,
      Some "QUJD" = Some b64 /\
      nth_error convo (1 + 2 * 1) =
        Some (message "user" (JArr [image_part (data_uri_of "b.jpg" b64)])).
Proof.
  eexists. eexists. split.
  - vm_compute. reflexivity.
  - refine (user_turn_contents
              (always (Response 200 (Some (reply_body (JStr "seen")))))
              (fun _ => Some "QUJD") "key" "model" ["a.png"; "b.jpg"]
              world0 _ _ None _ 1 "b.jpg" _ _).
    + vm_compute. reflexivity.
    + reflexivity.
    + vm_compute. lia.
Defined.

(** C10.  A reply that is the empty string is handled like [None]: in the
    frame loop the user turn stays without an assistant turn, the failure
    is printed and the loop is left; in the summary step the failure is
    printed and no assistant turn is appended. *)
Theorem empty_reply_is_failure
        (server : nat -> request -> http_result)
        (read_b64 : string -> option string) (api_key model : string)
        (idx : nat) (name b64 : string) (rest : list string)
        (convo : list json) (w w1 : world) (v : json) :
  v = JStr EmptyString \/ v = JNull ->
  read_b64 name = Some b64 ->
  (send_messages server api_key model (convo ++ [user_turn idx name b64]) 5 w
     = (Ok v, w1) ->
   frame_loop server read_b64 api_key model idx (name :: rest) convo w
     = (Ok (convo ++ [user_turn idx name b64], Some idx),
        {| posts := posts w1;
           trace := trace w1 ++ [EvPrint (Frame_failed idx name)] |})) /\
  (send_messages server api_key model (convo ++ [summary_request]) 5 w
     = (Ok v, w1) ->
   summarize server api_key model convo w
     = (Ok (convo ++ [summary_request]),
        {| posts := posts w1;
           trace := trace w1 ++ [EvPrint Birds_eye_failed] |})).
Proof.
  intros Hv Hread.
  assert (Hfalse : truthy v = false) by (destruct Hv as [->| ->]; reflexivity).
  split; intros Hsend.
  - cbn [frame_loop]. unfold b64_data_uri. rewrite Hread.
    unfold bind at 1, ret at 1.
    fold (data_uri_of name b64). fold (user_turn idx name b64).
    unfold bind at 1. rewrite Hsend, Hfalse. reflexivity.
  - unfold summarize, bind at 1. rewrite Hsend, Hfalse. reflexivity.
Qed.

Lemma empty_reply_is_failure_witness :
  let server := always (Response 200 (Some (reply_body (JStr EmptyString)))) in
  let w1 := {| posts := 1;
               trace := [EvPost (mk_request "key" "model"
                                   [system_turn; user_turn 1 "a.png" "QUJD"])] |} in
  let w2 := {| posts := 1;
               trace := [EvPost (mk_request "key" "model"
                                   [system_turn; summary_request])] |} in
  frame_loop server (fun _ => Some "QUJD") "key" "model" 1 ("a.png" :: ["b.png"])
    [system_turn] world0
  = (Ok ([system_turn] ++ [user_turn 1 "a.png" "QUJD"], Some 1),
     {| posts := posts w1;
        trace := trace w1 ++ [EvPrint (Frame_failed 1 "a.png")] |}) /\
  summarize server "key" "model" [system_turn] world0
  = (Ok ([system_turn] ++ [summary_request]),
     {| posts := posts w2;
        trace := trace w2 ++ [EvPrint Birds_eye_failed] |}).
Proof.
  intros server w1 w2. split.
  - apply (proj1 (empty_reply_is_failure server (fun _ => Some "QUJD") "key" "model"
                    1 "a.png" "QUJD" ["b.png"] [system_turn] world0 w1 (JStr EmptyString)
                    (or_introl eq_refl) eq_refl)).
    vm_compute. reflexivity.
  - apply (proj2 (empty_reply_is_failure server (fun _ => Some "QUJD") "key" "model"
                    1 "a.png" "QUJD" ["b.png"] [system_turn] world0 w2 (JStr EmptyString)
                    (or_introl eq_refl) eq_refl)).
    vm_compute. reflexivity.
Defined.

(** The hypotheses of the witness are met: the endpoint's empty reply makes
    [send_messages] return the empty string on the first attempt. *)
Example empty_reply_run :
  let server := always (Response 200 (Some (reply_body (JStr EmptyString)))) in
  send_messages server "key" "model"
    ([system_turn] ++ [user_turn 1 "a.png" "QUJD"]) 5 world0
  = (Ok (JStr EmptyString),
     {| posts := 1;
        trace := [EvPost (mk_request "key" "model"
                            [system_turn; user_turn 1 "a.png" "QUJD"])] |}) /\
  fst (frame_loop server (fun _ => Some "QUJD") "key" "model" 1 ["a.png"; "b.png"]
         [system_turn] world0)
  = Ok ([system_turn; user_turn 1 "a.png" "QUJD"], Some 1).
Proof. vm_compute. split; reflexivity. Qed.

(** A complete run of [main] on two frames against an endpoint that always
    answers: the transcript written has [1 + 2 * 2 + 2] turns. *)
Example two_frames_full_run :
  let r := main (always (Response 200 (Some (reply_body (JStr "seen")))))
             (fun _ => Some "QUJD")
             {| arg_dir := "frames"; arg_model := "model"; arg_out := Some "t.json" |}
             (Some "key") ["b.jpg"; "a.png"] world0 in
  fst r = Ok [system_turn;
              user_turn 1 "a.png" "QUJD"; message "assistant" (JStr "seen");
              user_turn 2 "b.jpg" "QUJD"; message "assistant" (JStr "seen");
              summary_request; message "assistant" (JStr "seen")] /\
  map (fun f => List.length (snd f)) (writes_of (trace (snd r))) = [1 + 2 * 2 + 2].
Proof. vm_compute. split; reflexivity. Qed.

(** C1.  Two frames, an endpoint that fails the first five requests (the
    whole attempt budget of the call for frame 1) and answers afterwards.
    The loop is left at frame 1 and frame 2 is never sent, but the summary
    is still requested: a sixth POST carries the bird's-eye view prompt
    after the unanswered user turn, and the transcript written ends with
    the summary request and the summary reply. *)
Theorem halted_run_requests_summary :
  let r := main (fails_then_replies 5 "map") (fun _ => Some "QUJD")
             {| arg_dir := "frames"; arg_model := "model"; arg_out := Some "t.json" |}
             (Some "key") ["a.png"; "b.png"] world0 in
  let convo := [system_turn; user_turn 1 "a.png" "QUJD";
                summary_request; message "assistant" (JStr "map")] in
  fst r = Ok convo /\
  writes_of (trace (snd r)) = [("t.json", convo)] /\
  map req_messages (posts_of (trace (snd r))) =
    repeat [system_turn; user_turn 1 "a.png" "QUJD"] 5
    ++ [[system_turn; user_turn 1 "a.png" "QUJD"; summary_request]] /\
  In (EvPrint (Frame_failed 1 "a.png")) (trace (snd r)).
Proof.
  vm_compute. repeat split. repeat (try (left; reflexivity); right).
Qed.

(* ================================================================== *)
(** ** Properties of the frame enumerator *)

(** *** The sort key has the form that makes its comparisons well typed *)

Lemma isdigit_cons_digit (c : ascii) (d : string) :
  is_digit c = true -> isdigit d = true -> isdigit (String c d) = true.
Proof.
  intros Hc Hd. destruct d as [|c' d]; [discriminate|].
  cbn [isdigit all_digits] in *. now rewrite Hc.
Qed.

Lemma isdigit_cons_other (c : ascii) (r : string) :
  is_digit c = false -> isdigit (String c r) = false.
Proof. intros Hc. cbn [isdigit all_digits]. now rewrite Hc. Qed.

Lemma re_split_digits_shape (s : string) : runs_shape (re_split_digits s).
Proof.
  induction s as [|c s IH]; cbn [re_split_digits].
  - now constructor.
  - destruct (is_digit c) eqn:Hc.
    + assert (Hone : isdigit (String c EmptyString) = true)
        by (cbn [isdigit all_digits]; now rewrite Hc).
      destruct IH as [r Hr | r d rest Hr Hd Hrest].
      * destruct r; now repeat constructor.
      * destruct r.
        -- constructor; [reflexivity | now apply isdigit_cons_digit | assumption].
        -- constructor; [reflexivity | assumption |].
           now constructor.
    + destruct IH as [r Hr | r d rest Hr Hd Hrest].
      * constructor. now apply isdigit_cons_other.
      * constructor; [now apply isdigit_cons_other | assumption | assumption].
Qed.

Lemma natural_key_shape (name : string) : key_shape (natural_key name).
Proof.
  unfold natural_key.
  induction (re_split_digits_shape name) as [r Hr | r d rest Hr Hd Hrest IH];
    cbn [map].
  - rewrite Hr. constructor.
  - rewrite Hr, Hd. now constructor.
Qed.

(** *** The three-way comparison is a total order *)

Lemma ascii_cmp_refl (c : ascii) : Ascii.compare c c = Eq.
Proof. unfold Ascii.compare. apply N.compare_refl. Qed.

Lemma str_cmp_refl (s : string) : String.compare s s = Eq.
Proof. induction s as [|c s IH]; cbn; [reflexivity | now rewrite ascii_cmp_refl]. Qed.

Lemma ascii_cmp_trans (x y z : ascii) :
  Ascii.compare x y = Lt -> Ascii.compare y z = Lt -> Ascii.compare x z = Lt.
Proof.
  unfold Ascii.compare. rewrite !N.compare_lt_iff. apply N.lt_trans.
Qed.

Lemma str_cmp_trans (a : string) :
  forall b c, String.compare a b = Lt -> String.compare b c = Lt ->
              String.compare a c = Lt.
Proof.
  induction a as [|x a IH]; intros [|y b] [|z c]; cbn; try easy.
  destruct (Ascii.compare x y) eqn:Hxy; try discriminate;
    destruct (Ascii.compare y z) eqn:Hyz; try discriminate; intros H1 H2.
  - apply Ascii.compare_eq_iff in Hxy, Hyz. subst.
    rewrite ascii_cmp_refl. eauto.
  - apply Ascii.compare_eq_iff in Hxy. subst. now rewrite Hyz.
  - apply Ascii.compare_eq_iff in Hyz. subst. now rewrite Hxy.
  - now rewrite (ascii_cmp_trans x y z).
Qed.

Lemma chunk_cmp_refl (x : chunk) : chunk_cmp x x = Eq.
Proof. destruct x; cbn; [apply str_cmp_refl | apply N.compare_refl]. Qed.

Lemma chunk_cmp_eq (x y : chunk) : chunk_cmp x y = Eq -> x = y.
Proof.
  destruct x, y; cbn; try discriminate; intros H.
  - f_equal. now apply String.compare_eq_iff.
  - f_equal. now apply N.compare_eq_iff.
Qed.

Lemma chunk_cmp_antisym (x y : chunk) : chunk_cmp x y = CompOpp (chunk_cmp y x).
Proof.
  destruct x, y; cbn; try reflexivity.
  - apply String.compare_antisym.
  - apply N.compare_antisym.
Qed.

Lemma chunk_cmp_trans (x y z : chunk) :
  chunk_cmp x y = Lt -> chunk_cmp y z = Lt -> chunk_cmp x z = Lt.
Proof.
  destruct x, y, z; cbn; try easy.
  - apply str_cmp_trans.
  - rewrite !N.compare_lt_iff. apply N.lt_trans.
Qed.

Lemma key_cmp_refl (a : list chunk) : key_cmp a a = Eq.
Proof. induction a as [|x a IH]; cbn; [reflexivity | now rewrite chunk_cmp_refl]. Qed.

Lemma key_cmp_eq (a : list chunk) : forall b, key_cmp a b = Eq -> a = b.
Proof.
  induction a as [|x a IH]; intros [|y b]; cbn; try easy.
  destruct (chunk_cmp x y) eqn:Hxy; try discriminate.
  intros H. apply chunk_cmp_eq in Hxy. subst. f_equal. now apply IH.
Qed.

Lemma key_cmp_antisym (a : list chunk) :
  forall b, key_cmp a b = CompOpp (key_cmp b a).
Proof.
  induction a as [|x a IH]; intros [|y b]; cbn; try reflexivity.
  rewrite (chunk_cmp_antisym y x).
  destruct (chunk_cmp x y); cbn; auto.
Qed.

Lemma key_cmp_trans (a : list chunk) :
  forall b c, key_cmp a b = Lt -> key_cmp b c = Lt -> key_cmp a c = Lt.
Proof.
  induction a as [|x a IH]; intros [|y b] [|z c]; cbn; try easy.
  destruct (chunk_cmp x y) eqn:Hxy; try discriminate;
    destruct (chunk_cmp y z) eqn:Hyz; try discriminate; intros H1 H2.
  - apply chunk_cmp_eq in Hxy, Hyz. subst. rewrite chunk_cmp_refl. eauto.
  - apply chunk_cmp_eq in Hxy. subst. now rewrite Hyz.
  - apply chunk_cmp_eq in Hyz. subst. now rewrite Hxy.
  - now rewrite (chunk_cmp_trans x y z).
Qed.

Lemma key_cmp_le_trans (a b c : list chunk) :
  key_cmp a b <> Gt -> key_cmp b c <> Gt -> key_cmp a c <> Gt.
Proof.
  intros Hab Hbc.
  destruct (key_cmp a b) eqn:E1; [| |congruence].
  - apply key_cmp_eq in E1. now subst.
  - destruct (key_cmp b c) eqn:E2; [| |congruence].
    + apply key_cmp_eq in E2. subst. congruence.
    + rewrite (key_cmp_trans a b c E1 E2). discriminate.
Qed.

(** *** On keys of that form, Python's [<] computes the comparison *)

Lemma str_eqb_cmp (a b : string) :
  String.eqb a b = match String.compare a b with Eq => true | _ => false end.
Proof.
  destruct (String.eqb_spec a b) as [->|Hne].
  - now rewrite str_cmp_refl.
  - destruct (String.compare a b) eqn:E; try reflexivity.
    apply String.compare_eq_iff in E. contradiction.
Qed.

Lemma N_eqb_cmp (a b : N) :
  N.eqb a b = match N.compare a b with Eq => true | _ => false end.
Proof.
  destruct (N.eqb_spec a b) as [->|Hne].
  - now rewrite N.compare_refl.
  - destruct (N.compare a b) eqn:E; try reflexivity.
    apply N.compare_eq_iff in E. contradiction.
Qed.

Lemma key_lt_cmp (a : list chunk) :
  key_shape a -> forall b, key_shape b -> key_lt a b = Ok (is_lt (key_cmp a b)).
Proof.
  induction 1 as [s | s n rest Hrest IH]; intros b Hb;
    destruct Hb as [t | t m rest' Hrest'];
    cbn [key_lt key_cmp chunk_eqb chunk_cmp chunk_lt];
    rewrite str_eqb_cmp; unfold String.ltb;
    destruct (String.compare s t) eqn:Hst; try reflexivity.
  - rewrite N_eqb_cmp. unfold N.ltb.
    destruct (N.compare n m) eqn:Hnm; try reflexivity.
    now apply IH.
Qed.

Lemma key_lt_natural (a b : string) :
  key_lt (natural_key a) (natural_key b)
  = Ok (is_lt (key_cmp (natural_key a) (natural_key b))).
Proof. apply key_lt_cmp; apply natural_key_shape. Qed.

Lemma frame_le_cmp (a b : string) :
  frame_le a b <-> key_cmp (natural_key a) (natural_key b) <> Gt.
Proof.
  unfold frame_le. rewrite key_lt_natural, (key_cmp_antisym (natural_key a)).
  destruct (key_cmp (natural_key b) (natural_key a)); cbn; split;
    congruence.
Qed.

Lemma frame_le_trans (a b c : string) :
  frame_le a b -> frame_le b c -> frame_le a c.
Proof. rewrite !frame_le_cmp. apply key_cmp_le_trans. Qed.

(** *** The sort: total, sorted, a permutation, stable *)

Lemma same_key_not_lt (k : list chunk) (x y : string) :
  same_key k x = true -> same_key k y = true ->
  is_lt (key_cmp (natural_key y) (natural_key x)) = false.
Proof.
  unfold same_key. intros Hx Hy.
  destruct (key_cmp k (natural_key x)) eqn:Ex; try discriminate.
  destruct (key_cmp k (natural_key y)) eqn:Ey; try discriminate.
  apply key_cmp_eq in Ex, Ey. rewrite <- Ex, <- Ey, key_cmp_refl. reflexivity.
Qed.

Lemma insert_frame_spec (x : string) (l : list string) :
  exists r,
    insert_frame x l = Ok r /\
    Permutation (x :: l) r /\
    (StronglySorted frame_le l -> StronglySorted frame_le r) /\
    (forall k, filter (same_key k) r = filter (same_key k) (x :: l)).
Proof.
  induction l as [|y l (r & Hr & Hperm & Hsorted & Hstable)].
  - exists [x]. repeat split; auto. intros _. repeat constructor.
  - cbn [insert_frame]. rewrite key_lt_natural. cbn [rbind].
    destruct (is_lt (key_cmp (natural_key y) (natural_key x))) eqn:Hlt.
    + rewrite Hr. cbn [rbind]. exists (y :: r). split; [reflexivity|].
      split; [|split].
      * rewrite perm_swap. now constructor.
      * intros Hs. apply StronglySorted_inv in Hs. destruct Hs as [Hl Hy].
        constructor; [now apply Hsorted|].
        apply (Permutation_Forall Hperm). constructor; [|assumption].
        apply frame_le_cmp. rewrite key_cmp_antisym.
        destruct (key_cmp (natural_key x) (natural_key y)) eqn:E; try discriminate.
        rewrite key_cmp_antisym, E in Hlt. discriminate.
      * intros k. cbn [filter]. rewrite Hstable. cbn [filter].
        destruct (same_key k x) eqn:Hx, (same_key k y) eqn:Hy; try reflexivity.
        rewrite (same_key_not_lt k x y Hx Hy) in Hlt. discriminate.
    + exists (x :: y :: l). repeat split; auto.
      intros Hs. constructor; [assumption|].
      assert (Hxy : frame_le x y) by (unfold frame_le; now rewrite key_lt_natural, Hlt).
      constructor; [assumption|].
      apply StronglySorted_inv in Hs. destruct Hs as [_ Hy].
      eapply Forall_impl; [|exact Hy].
      intros z Hz. now apply (frame_le_trans x y z).
Qed.

Lemma py_sorted_spec (l : list string) :
  exists r,
    py_sorted l = Ok r /\
    Permutation l r /\
    StronglySorted frame_le r /\
    (forall k, filter (same_key k) r = filter (same_key k) l).
Proof.
  induction l as [|x l (r & Hr & Hperm & Hsorted & Hstable)].
  - exists []. repeat split; auto. constructor.
  - cbn [py_sorted]. rewrite Hr. cbn [rbind].
    destruct (insert_frame_spec x r) as (r' & Hr' & Hperm' & Hsorted' & Hstable').
    exists r'. split; [assumption|]. split; [|split].
    + rewrite <- Hperm'. now constructor.
    + now apply Hsorted'.
    + intros k. rewrite Hstable'. cbn [filter]. now rewrite Hstable.
Qed.

(** *** The pattern *)

Lemma glob_star (p : list glob_tok) (s : string) :
  glob_match (Star :: p) s =
  glob_match p s ||
  match s with
  | EmptyString => false
  | String _ s' => glob_match (Star :: p) s'
  end.
Proof. destruct s; reflexivity. Qed.

Lemma glob_star_append (p : list glob_tok) (stem ext : string) :
  glob_match p ext = true -> glob_match (Star :: p) (stem ++ ext)%string = true.
Proof.
  intros H. induction stem as [|c stem IH]; rewrite glob_star.
  - cbn [String.append]. now rewrite H.
  - cbn [String.append]. rewrite IH. apply orb_true_r.
Qed.






(** The pattern is matched letter for letter: an upper-case extension is
    not a frame, although the encoder would accept it ([mime_of] lowers the
    suffix first). *)
Example upper_case_extension :
  list_frames ["A.PNG"; "b.png"] = Ok ["b.png"] /\ mime_of "A.PNG" = "image/png".
Proof. split; reflexivity. Qed.

(* ================================================================== *)
(** ** Properties of the screenshot capturer *)

Module CapturerFacts.

Import Capturer.

Section Machine.

Variables grab to_png sleep : nat -> step.
Variable time : nat -> Z.
Variable interval : Z.

Lemma quiet_round (n : nat) :
  round_raises grab to_png sleep n = None ->
  grab n = Done /\ to_png n = Done /\ sleep n = Done.
Proof.
  unfold round_raises.
  destruct (grab n), (to_png n), (sleep n); intros H;
    try discriminate; auto.
Qed.

Lemma capture_loop_running (fuel : nat) :
  forall n out,
    (forall j, j < fuel -> round_raises grab to_png sleep (n + j) = None) ->
    capture_loop grab to_png sleep time interval fuel n out = None.
Proof.
  induction fuel as [|fuel IH]; intros n out Hquiet; [reflexivity|].
  cbn [capture_loop].
  destruct (quiet_round n) as (-> & -> & ->).
  - rewrite <- (Nat.add_0_r n). apply Hquiet. lia.
  - apply IH. intros j Hj.
    replace (S n + j) with (n + S j) by lia. apply Hquiet. lia.
Qed.

Lemma capture_loop_ends (k : nat) :
  forall n out e fuel,
    (forall j, j < k -> round_raises grab to_png sleep (n + j) = None) ->
    round_raises grab to_png sleep (n + k) = Some e ->
    k < fuel ->
    exists out',
      capture_loop grab to_png sleep time interval fuel n out
      = Some (Returned, out' ++ [last_words e]).
Proof.
  induction k as [|k IH]; intros n out e fuel Hquiet Hraise Hfuel;
    (destruct fuel as [|fuel]; [lia|]); cbn [capture_loop].
  - rewrite Nat.add_0_r in Hraise. unfold round_raises in Hraise.
    destruct (grab n) as [|e1].
    + destruct (to_png n) as [|e2].
      * destruct (sleep n) as [|e3]; [discriminate|].
        injection Hraise as ->. eexists. destruct e; reflexivity.
      * injection Hraise as ->. eexists. destruct e; reflexivity.
    + injection Hraise as ->. eexists. destruct e; reflexivity.
  - destruct (quiet_round n) as (-> & -> & ->).
    + rewrite <- (Nat.add_0_r n). apply Hquiet. lia.
    + apply IH; [| |lia].
      * intros j Hj. replace (S n + j) with (n + S j) by lia.
        apply Hquiet. lia.
      * now replace (S n + k) with (n + S k) by lia.
Qed.

End Machine.

(** C9, as the code has it.  With a positive interval and a working
    set-up, the capturer runs as long as no call of a round raises.  The
    first exception of a round ends it: the interrupt prints the stop
    line, any other exception prints the error line, and in both cases
    [start_screenshot_capture] returns and the process exits with
    status 0. *)
Theorem capture_ends
        (py_int : string -> option Z) (grab to_png sleep : nat -> step)
        (time : nat -> Z) (prog interval_arg dir : string) (interval : Z) :
  py_int interval_arg = Some interval ->
  (0 < interval)%Z ->
  (forall fuel,
      (forall n, n < fuel -> round_raises grab to_png sleep n = None) ->
      script py_int Done grab to_png sleep time [prog; interval_arg; dir] fuel
      = None) /\
  (forall k e fuel,
      (forall n, n < k -> round_raises grab to_png sleep n = None) ->
      round_raises grab to_png sleep k = Some e ->
      k < fuel ->
      exists out,
        script py_int Done grab to_png sleep time [prog; interval_arg; dir] fuel
        = Some (Exit 0, out ++ [last_words e])).
Proof.
  intros Hint Hpos.
  assert (Hle : (interval <=? 0)%Z = false) by (apply Z.leb_gt; lia).
  split.
  - intros fuel Hquiet.
    unfold script, start_screenshot_capture. rewrite Hint, Hle.
    now rewrite capture_loop_running.
  - intros k e fuel Hquiet Hraise Hfuel.
    unfold script, start_screenshot_capture. rewrite Hint, Hle.
    edestruct (capture_loop_ends grab to_png sleep time interval k 0)
      as (out & ->); [exact Hquiet | exact Hraise | exact Hfuel |].
    exists out. reflexivity.
Qed.

Lemma capture_ends_witness :
  exists out,
    script int_of_one Done (grab_fails_at 2 OtherError) works works
      (clock 1700000000 1) ["screenshot_tool.py"; "1"; "shots"] 3
    = Some (Exit 0, out ++ [last_words OtherError]).
Proof.
  apply (proj2 (capture_ends int_of_one (grab_fails_at 2 OtherError) works works
                  (clock 1700000000 1) "screenshot_tool.py" "1" "shots" 1
                  eq_refl eq_refl) 2 OtherError 3).
  - intros n Hn. destruct n as [|[|n]]; [reflexivity | reflexivity | lia].
  - reflexivity.
  - lia.
Defined.

(** C9 as worded fails when a capture raises: the error is printed, and
    the exit status is 0. *)
Lemma capture_error_exits_cleanly :
  script int_of_one Done (grab_fails_at 2 OtherError) works works
    (clock 1700000000 1) ["screenshot_tool.py"; "1"; "shots"] 3
  = Some (Exit 0,
          [Print_start 1 "shots";
           Saved 1700000000; Print_saved 1700000000; Slept 1;
           Saved 1700000001; Print_saved 1700000001; Slept 1;
           Print_error OtherError]) /\
  is_failure (Exit 0) = false.
Proof. split; reflexivity. Qed.

(** For comparison, the paths that do exit with status 1: a wrong number
    of arguments, an interval that is no integer, an interval that is not
    positive. *)
Example configuration_errors :
  script int_of_one Done works works works (clock 0 1) ["screenshot_tool.py"] 3
    = Some (Exit 1, [Print_usage]) /\
  script int_of_one Done works works works (clock 0 1)
    ["screenshot_tool.py"; "soon"; "shots"] 3
    = Some (Exit 1, [Print_bad_interval]) /\
  script (fun _ => Some 0%Z) Done works works works (clock 0 1)
    ["screenshot_tool.py"; "0"; "shots"] 3
    = Some (Exit 1, [Print_bad_interval]).
Proof. repeat split. Qed.

End CapturerFacts.

(* ================================================================== *)
(** ** Further properties of the remote chat client *)

Lemma prints_of_app (a b : list event) : prints_of (a ++ b) = prints_of a ++ prints_of b.
Proof. apply flat_map_app. Qed.

(** A computation that adds nothing but error-log entries to the trace. *)
Lemma error_logs_silent (logs : list event) :
  Forall is_error_log logs ->
  posts_of logs = [] /\ sleeps_of logs = [] /\ writes_of logs = [] /\
  prints_of logs = [].
Proof.
  induction 1 as [|e logs He _ (Hp & Hs & Hw & Hpr)]; [repeat split|].
  destruct e; try contradiction. cbn. auto.
Qed.

Lemma handle_response_error_logs (h : http_result) :
  exists logs,
    Forall is_error_log logs /\
    forall w, handle_response h w =
              (outcome h, {| posts := posts w; trace := trace w ++ logs |}).
Proof.
  assert (Hret : forall A (a : A), exists r logs, Forall is_error_log logs /\
            forall w, ret a w = (r, {| posts := posts w; trace := trace w ++ logs |})).
  { intros A a. exists (Ok a), []. split; [constructor|].
    intros w. unfold ret. now rewrite app_nil_r, world_eta. }
  assert (Hraise : forall A e, exists r logs, Forall is_error_log logs /\
            forall w, @raise A e w = (r, {| posts := posts w; trace := trace w ++ logs |})).
  { intros A e. exists (Raise e), []. split; [constructor|].
    intros w. unfold raise. now rewrite app_nil_r, world_eta. }
  assert (Hlift : forall A (r0 : result A), exists r logs, Forall is_error_log logs /\
            forall w, lift r0 w = (r, {| posts := posts w; trace := trace w ++ logs |})).
  { intros A r0. exists r0, []. split; [constructor|].
    intros w. unfold lift. now rewrite app_nil_r, world_eta. }
  assert (Hemit : forall m, exists r logs, Forall is_error_log logs /\
            forall w, emit (EvLogError m) w
                      = (r, {| posts := posts w; trace := trace w ++ logs |})).
  { intros m. exists (Ok tt), [EvLogError m]. split; [repeat constructor|]. reflexivity. }
  assert (Hbind : forall A B (c : M A) (k : A -> M B),
            (exists r logs, Forall is_error_log logs /\
               forall w, c w = (r, {| posts := posts w; trace := trace w ++ logs |})) ->
            (forall a, exists r logs, Forall is_error_log logs /\
               forall w, k a w = (r, {| posts := posts w; trace := trace w ++ logs |})) ->
            exists r logs, Forall is_error_log logs /\
              forall w, bind c k w = (r, {| posts := posts w; trace := trace w ++ logs |})).
  { intros A B c k (r & l1 & H1 & Hc) Hk. destruct r as [a|e].
    - destruct (Hk a) as (r2 & l2 & H2 & Hk2). exists r2, (l1 ++ l2).
      split; [now apply Forall_app|].
      intros w. unfold bind. rewrite Hc, Hk2. cbn. now rewrite app_assoc.
    - exists (Raise e), l1. split; [assumption|].
      intros w. unfold bind. now rewrite Hc. }
  assert (H : exists r logs, Forall is_error_log logs /\
            forall w, handle_response h w
                      = (r, {| posts := posts w; trace := trace w ++ logs |})).
  { destruct h as [|status body]; unfold handle_response, raise_for_status, r_json;
      repeat first
        [ apply Hret | apply Hraise | apply Hlift | apply Hemit
        | apply Hbind; [ | intros ]
        | match goal with
          | |- exists _ _, _ /\ forall w, (if ?c then _ else _) w = _ => destruct c
          | |- exists _ _, _ /\ forall w, (match ?x with _ => _ end) w = _ => destruct x
          end ]. }
  destruct H as (r & logs & Hlogs & Hc). exists logs. split; [assumption|].
  intros w. unfold outcome. rewrite (Hc world0). cbn [fst]. apply Hc.
Qed.

(** *** Which exceptions an attempt can end in *)

Lemma rbind_raises {A B} (P : exn -> Prop) (r : result A) (k : A -> result B) :
  (forall e, r = Raise e -> P e) ->
  (forall a e, k a = Raise e -> P e) ->
  forall e, rbind r k = Raise e -> P e.
Proof.
  intros Hr Hk e. destruct r as [a|e']; cbn; [apply Hk|].
  intros [= <-]. now apply Hr.
Qed.

Lemma py_in_raises (k : string) (d : json) (e : exn) :
  py_in k d = Raise e -> e = TypeError.
Proof. destruct d; cbn; congruence. Qed.

Lemma py_get_raises (d : json) (k : string) (default : json) (e : exn) :
  py_get d k default = Raise e -> e = AttributeError.
Proof. destruct d; cbn; congruence. Qed.

Lemma py_getitem_raises (d : json) (k : string) (e : exn) :
  py_getitem d k = Raise e -> e = KeyError \/ e = TypeError.
Proof.
  destruct d; cbn; try (intros [= <-]; now right).
  destruct (assoc k m); [discriminate|]. intros [= <-]. now left.
Qed.

Lemma py_getitem0_raises (d : json) (e : exn) :
  py_getitem0 d = Raise e -> e = IndexError \/ e = KeyError \/ e = TypeError.
Proof.
  destruct d as [| | |s|l|m]; cbn; try (intros [= <-]; tauto).
  - destruct s; [intros [= <-]; tauto | discriminate].
  - destruct l; [intros [= <-]; tauto | discriminate].
Qed.

Lemma in_api_codes_raises (x : json) (e : exn) :
  in_api_codes x = Raise e -> e = TypeError.
Proof. destruct x; cbn; congruence. Qed.

(** An attempt ends in an exception that the handler catches, or in one of
    the three that escape. *)
Lemma outcome_raises (h : http_result) (e : exn) :
  outcome h = Raise e -> caught e = true \/ escapes e.
Proof.
  set (P := fun e => caught e = true \/ escapes e).
  assert (Hlift : forall A (r0 : result A),
            (forall e, r0 = Raise e -> P e) ->
            forall w e w', lift r0 w = (Raise e, w') -> P e).
  { intros A r0 H w e0 w'. unfold lift. intros [= -> _]. now apply H. }
  assert (Hbind : forall A B (c : M A) (k : A -> M B),
            (forall w e w', c w = (Raise e, w') -> P e) ->
            (forall a w e w', k a w = (Raise e, w') -> P e) ->
            forall w e w', bind c k w = (Raise e, w') -> P e).
  { intros A B c k Hc Hk w e0 w'. unfold bind.
    destruct (c w) as [[a|e1] w1] eqn:E.
    - apply Hk.
    - intros [= <- _]. eapply Hc, E. }
  assert (Hin : forall k d e, py_in k d = Raise e -> P e).
  { intros k d e0 H. apply py_in_raises in H. subst. right. left. reflexivity. }
  assert (Hitem : forall d k e, py_getitem d k = Raise e -> P e).
  { intros d k e0 H. apply py_getitem_raises in H.
    destruct H as [-> | ->]; [left; reflexivity | right; left; reflexivity]. }
  assert (Hitem0 : forall d e, py_getitem0 d = Raise e -> P e).
  { intros d e0 H. apply py_getitem0_raises in H.
    destruct H as [-> | [-> | ->]];
      [right; right; left; reflexivity | left; reflexivity | right; left; reflexivity]. }
  assert (Hget : forall d k v e, py_get d k v = Raise e -> P e).
  { intros d k v e0 H. apply py_get_raises in H. subst. right. right. right. reflexivity. }
  assert (Hcodes : forall x e, in_api_codes x = Raise e -> P e).
  { intros x e0 H. apply in_api_codes_raises in H. subst. right. left. reflexivity. }
  assert (H : forall w e w', handle_response h w = (Raise e, w') -> P e).
  { destruct h as [|status body]; unfold handle_response, raise_for_status, r_json.
    - intros w e0 w'. unfold raise. intros [= <- _]. left. reflexivity.
    - repeat first
        [ apply Hbind; [ | intros ? ]
        | apply Hlift
        | apply rbind_raises; [ | intros ? ]
        | solve [eauto]
        | match goal with
          | |- forall w e w', ret _ w = (Raise e, w') -> _ =>
              intros ? ? ?; unfold ret; discriminate
          | |- forall w e w', emit _ w = (Raise e, w') -> _ =>
              intros ? ? ?; unfold emit; discriminate
          | |- forall w e w', raise ?x w = (Raise e, w') -> _ =>
              intros ? ? ?; unfold raise; intros [= <- _]; left; reflexivity
          | |- forall w e w', (if ?c then _ else _) w = _ -> _ => destruct c
          | |- forall w e w', (match ?x with _ => _ end) w = _ -> _ => destruct x
          end ].
      all: intros e0 He0; try discriminate He0; injection He0 as <-; left; reflexivity. }
  unfold outcome. intros Hout.
  destruct (handle_response h world0) as [r w'] eqn:E. cbn in Hout. subst r.
  eapply H, E.
Qed.

(** *** Every run of the retry loop *)

Section LoopRuns.

Variable server : nat -> request -> http_result.
Variable attempts : nat.
Variable rq : request.

Lemma attempt_error_logs (w : world) :
  exists logs,
    Forall is_error_log logs /\
    attempt server rq w =
      (outcome (server (posts w) rq),
       {| posts := S (posts w); trace := trace w ++ EvPost rq :: logs |}).
Proof.
  destruct (handle_response_error_logs (server (posts w) rq)) as (logs & Hlogs & Hc).
  exists logs. split; [assumption|].
  unfold attempt, bind, session_post. rewrite Hc. cbn.
  now rewrite <- app_assoc.
Qed.

(** Whatever the endpoint answers: the loop posts the same request [m]
    times, at most once per remaining attempt, sleeps between consecutive
    posts and nowhere else, prints and writes nothing, and lets only the
    three uncaught exceptions out. *)
Lemma send_loop_run :
  forall n i w,
    i + n = S attempts ->
    exists m t r w',
      send_loop server attempts (seq i n) rq w = (r, w') /\
      m <= n /\ (n <> 0 -> 1 <= m) /\
      posts w' = posts w + m /\
      trace w' = trace w ++ t /\
      posts_of t = repeat rq m /\
      sleeps_of t = map backoff (seq i (m - 1)) /\
      writes_of t = [] /\ prints_of t = [] /\
      (forall e, r = Raise e -> escapes e).
Proof.
  induction n as [|n IH]; intros i w Hi.
  - exists 0, [], (Ok JNull), w. cbn. rewrite app_nil_r.
    repeat split; try lia; congruence.
  - destruct (attempt_error_logs w) as (logs & Hlogs & Hrun).
    destruct (error_logs_silent logs Hlogs) as (Hp & Hs & Hw & Hpr).
    cbn [seq send_loop]. unfold try_except. rewrite Hrun.
    destruct (outcome (server (posts w) rq)) as [v|e] eqn:Hout.
    + exists 1, ([EvPost rq] ++ logs), (Ok v). eexists. split; [reflexivity|].
      rewrite posts_of_app, sleeps_of_app, writes_of_app, prints_of_app.
      rewrite Hp, Hs, Hw, Hpr. cbn [posts trace].
      repeat split; try lia. discriminate.
    + destruct (caught e) eqn:Hc.
      * unfold bind at 1, emit at 1. cbn [posts trace].
        destruct (Nat.eqb_spec i attempts) as [Heq|Hne].
        -- exists 1, (([EvPost rq] ++ logs)
                      ++ [EvLogWarning (Attempt_failed i attempts e);
                          EvLogError (All_attempts_failed attempts e)]), (Ok JNull).
           eexists. split; [reflexivity|]. cbn [posts trace].
           rewrite !posts_of_app, !sleeps_of_app, !writes_of_app, !prints_of_app.
           rewrite Hp, Hs, Hw, Hpr.
           repeat split; try lia.
           ++ cbn. now rewrite <- !app_assoc.
           ++ discriminate.
        -- unfold bind at 1, emit at 1. cbn [posts trace].
           match goal with
           | |- context [send_loop _ _ _ _ ?w2] =>
               destruct (IH (S i) w2) as (m & t & r & w' & Hloop & Hm & Hm1 & Hposts
                                          & Htrace & Hpo & Hsl & Hwr & Hprt & Hesc);
                 [lia | rewrite Hloop]
           end.
           assert (1 <= m) by (apply Hm1; lia).
           exists (S m),
             ((([EvPost rq] ++ logs) ++ [EvLogWarning (Attempt_failed i attempts e)])
                ++ [EvSleep (backoff i)] ++ t), r, w'.
           split; [reflexivity|]. cbn [posts trace] in *.
           rewrite Htrace, Hposts.
           rewrite !posts_of_app, !sleeps_of_app, !writes_of_app, !prints_of_app.
           rewrite Hp, Hs, Hw, Hpr, Hpo, Hsl, Hwr, Hprt.
           destruct m as [|m]; [lia|].
           replace (S (S m) - 1) with (S m) by lia.
           replace (S m - 1) with m by lia.
           repeat split; try lia.
           ++ now rewrite <- !app_assoc.
           ++ assumption.
      * exists 1, ([EvPost rq] ++ logs), (Raise e). eexists. split; [reflexivity|].
        rewrite posts_of_app, sleeps_of_app, writes_of_app, prints_of_app.
        rewrite Hp, Hs, Hw, Hpr. cbn [posts trace].
        repeat split; try lia.
        intros e0 [= <-].
        destruct (outcome_raises _ _ Hout) as [Hcaught|Hescapes];
          [congruence | assumption].
Qed.

(** The first attempt that does not fail retryably decides the call. *)
Lemma send_loop_decided (r : result json) :
  forall k n i w,
    i + n = S attempts ->
    k < n ->
    (forall j, j < k -> retryable_failure (server (posts w + j) rq) = true) ->
    outcome (server (posts w + k) rq) = r ->
    retryable_failure (server (posts w + k) rq) = false ->
    exists w',
      send_loop server attempts (seq i n) rq w = (r, w') /\
      posts_of (trace w') = posts_of (trace w) ++ repeat rq (S k) /\
      sleeps_of (trace w') = sleeps_of (trace w) ++ map backoff (seq i k).
Proof.
  induction k as [|k IH]; intros n i w Hi Hk Hfail Hout Hfinal;
    (destruct n as [|n]; [lia|]);
    destruct (attempt_error_logs w) as (logs & Hlogs & Hrun);
    destruct (error_logs_silent logs Hlogs) as (Hp & Hs & Hw & Hpr);
    cbn [seq send_loop]; unfold try_except; rewrite Hrun.
  - rewrite Nat.add_0_r in Hout, Hfinal. unfold retryable_failure in Hfinal.
    rewrite Hout in *.
    destruct r as [v|e]; [|rewrite Hfinal];
      (eexists; split; [reflexivity|]; cbn [trace];
       change (EvPost rq :: logs) with ([EvPost rq] ++ logs);
       rewrite !posts_of_app, !sleeps_of_app, Hp, Hs; cbn;
       split; reflexivity).
  - pose proof (Hfail 0 ltac:(lia)) as H0. rewrite Nat.add_0_r in H0.
    unfold retryable_failure in H0.
    destruct (outcome (server (posts w) rq)) as [v|e]; [discriminate|].
    rewrite H0. unfold bind at 1, emit at 1. cbn [posts trace].
    destruct (Nat.eqb_spec i attempts) as [Heq|Hne]; [lia|].
    unfold bind at 1, emit at 1. cbn [posts trace].
    match goal with
    | |- context [send_loop _ _ _ _ ?w2] =>
        destruct (IH n (S i) w2) as (w' & Hloop & Hpo & Hsl)
    end.
    + lia.
    + lia.
    + intros j Hj. cbn [posts].
      replace (S (posts w) + j) with (posts w + S j) by lia. apply Hfail. lia.
    + cbn [posts]. now replace (S (posts w) + k) with (posts w + S k) by lia.
    + cbn [posts]. now replace (S (posts w) + k) with (posts w + S k) by lia.
    + exists w'. split; [assumption|]. rewrite Hpo, Hsl. cbn [trace].
      change (EvPost rq :: logs) with ([EvPost rq] ++ logs).
      rewrite !posts_of_app, !sleeps_of_app, Hp, Hs. cbn.
      rewrite <- !app_assoc. cbn. split; reflexivity.
Qed.

End LoopRuns.

(** X1.  Whatever the endpoint answers, one call of [send_messages] posts
    the same request [n] times with [n] at most [attempts] (and at least 1
    when [attempts] is not 0), sleeps [n - 1] times, for [backoff 1 ..
    backoff (n-1)] seconds, and neither prints nor writes. *)
Theorem send_messages_budget
        (server : nat -> request -> http_result) (api_key model : string)
        (messages : list json) (attempts : nat) (w : world) :
  exists n t r w',
    send_messages server api_key model messages attempts w = (r, w') /\
    n <= attempts /\ (attempts <> 0 -> 1 <= n) /\
    posts w' = posts w + n /\
    trace w' = trace w ++ t /\
    posts_of t = repeat (mk_request api_key model messages) n /\
    sleeps_of t = map backoff (seq 1 (n - 1)) /\
    writes_of t = [] /\ prints_of t = [].
Proof.
  destruct (send_loop_run server attempts (mk_request api_key model messages)
              attempts 1 w)
    as (n & t & r & w' & Hrun & Hn & Hn1 & Hposts & Htrace & Hpo & Hsl & Hwr & Hpr & _);
    [lia|].
  exists n, t, r, w'. repeat split; assumption.
Qed.

(** X2.  The only exceptions that leave [send_messages] are [TypeError],
    [IndexError] and [AttributeError]; transport errors, HTTP errors,
    missing keys and bodies that do not parse never reach the caller. *)
Theorem send_messages_escapes
        (server : nat -> request -> http_result) (api_key model : string)
        (messages : list json) (attempts : nat) (w : world) (e : exn) :
  fst (send_messages server api_key model messages attempts w) = Raise e ->
  e = TypeError \/ e = IndexError \/ e = AttributeError.
Proof.
  destruct (send_loop_run server attempts (mk_request api_key model messages)
              attempts 1 w)
    as (n & t & r & w' & Hrun & _ & _ & _ & _ & _ & _ & _ & _ & Hesc); [lia|].
  unfold send_messages. fold (mk_request api_key model messages).
  rewrite Hrun. cbn [fst]. intros ->. now apply Hesc.
Qed.

Lemma send_messages_escapes_witness :
  IndexError = TypeError \/ IndexError = IndexError \/ IndexError = AttributeError.
Proof.
  apply (send_messages_escapes
           (always (Response 200 (Some (JObj [("choices", JArr [])]))))
           "key" "model" [] 5 world0 IndexError).
  reflexivity.
Defined.

(** X3.  The first attempt that does not fail retryably decides the call:
    after [k] retryable failures, with [k] below the budget, the call ends
    with the outcome of attempt [k + 1], be it a reply, the [None] of a
    non-retryable API error or an escaping exception, after [k + 1] posts
    and the sleeps [backoff 1 .. backoff k]. *)
Theorem decisive_attempt_ends_call
        (server : nat -> request -> http_result) (api_key model : string)
        (messages : list json) (attempts k : nat) (w : world) (r : result json) :
  k < attempts ->
  (forall j, j < k ->
     retryable_failure
       (server (posts w + j) (mk_request api_key model messages)) = true) ->
  outcome (server (posts w + k) (mk_request api_key model messages)) = r ->
  retryable_failure
    (server (posts w + k) (mk_request api_key model messages)) = false ->
  exists w',
    send_messages server api_key model messages attempts w = (r, w') /\
    posts_of (trace w') =
      posts_of (trace w) ++ repeat (mk_request api_key model messages) (S k) /\
    sleeps_of (trace w') = sleeps_of (trace w) ++ map backoff (seq 1 k).
Proof.
  intros Hk Hfail Hout Hfinal.
  apply (send_loop_decided server attempts (mk_request api_key model messages)
           r k attempts 1 w); trivial.
Qed.

Lemma decisive_attempt_ends_call_witness :
  exists w',
    send_messages
      (fun n _ => if Nat.eqb n 0 then Response 503 None
                  else Response 200 (Some (reply_body (JStr "seen"))))
      "key" "model" [] 5 world0 = (Ok (JStr "seen"), w') /\
    posts_of (trace w') =
      posts_of (trace world0) ++ repeat (mk_request "key" "model" []) 2 /\
    sleeps_of (trace w') = sleeps_of (trace world0) ++ map backoff (seq 1 1).
Proof.
  apply (decisive_attempt_ends_call
           (fun n _ => if Nat.eqb n 0 then Response 503 None
                       else Response 200 (Some (reply_body (JStr "seen"))))
           "key" "model" [] 5 1 world0 (Ok (JStr "seen"))).
  - lia.
  - intros j Hj. assert (j = 0) by lia. subst. reflexivity.
  - reflexivity.
  - reflexivity.
Defined.

(** X4.  The status code is looked at twice only: unless it is a 4xx or
    one of 500, 502, 503 and 504, the body alone decides the attempt.  A
    501 or a 302 with a well-formed reply body is a success like a 200. *)
Theorem unlisted_status_ignored (s : Z) (body : option json) :
  ~ (400 <= s < 500)%Z ->
  ~ In s RETRYABLE_STATUSES ->
  outcome (Response s body) = outcome (Response 200 body).
Proof.
  intros H4 Hr.
  assert (H1 : ((400 <=? s) && (s <? 500))%Z = false).
  { destruct (400 <=? s)%Z eqn:Ea, (s <? 500)%Z eqn:Eb; try reflexivity.
    apply Z.leb_le in Ea. apply Z.ltb_lt in Eb. lia. }
  assert (H2 : in_statuses s RETRYABLE_STATUSES = false).
  { unfold in_statuses. destruct (existsb (Z.eqb s) RETRYABLE_STATUSES) eqn:E;
      [|reflexivity].
    apply existsb_exists in E. destruct E as (x & Hx & Heq).
    apply Z.eqb_eq in Heq. subst. contradiction. }
  unfold outcome, handle_response. rewrite H1, H2. reflexivity.
Qed.

Lemma unlisted_status_ignored_witness :
  outcome (Response 501 (Some (reply_body (JStr "seen"))))
  = outcome (Response 200 (Some (reply_body (JStr "seen")))).
Proof.
  apply (unlisted_status_ignored 501 (Some (reply_body (JStr "seen")))).
  - lia.
  - cbn. intros [H|[H|[H|[H|[]]]]]; discriminate.
Defined.

(** *** The time spent sleeping *)

Lemma total_sleep_app (a b : list Q) :
  (total_sleep (a ++ b) == total_sleep a + total_sleep b)%Q.
Proof.
  unfold total_sleep. induction a as [|x a IH]; cbn [app fold_right].
  - ring.
  - rewrite IH. ring.
Qed.

Lemma backoff_succ (m : nat) : (backoff (S m) == inject_Z (2 ^ Z.of_nat m))%Q.
Proof.
  unfold backoff. rewrite Nat2Z.inj_succ, Z.pow_succ_r by lia.
  rewrite inject_Z_mult. change (inject_Z 2) with 2%Q.
  setoid_replace (1 # 2)%Q with (/ 2)%Q by reflexivity.
  field.
Qed.

Lemma total_backoff (m : nat) :
  (total_sleep (map backoff (seq 1 m)) == inject_Z (2 ^ Z.of_nat m - 1))%Q.
Proof.
  induction m as [|m IH].
  - reflexivity.
  - rewrite seq_S, map_app, total_sleep_app, IH. cbn [map total_sleep fold_right plus].
    rewrite backoff_succ, Nat2Z.inj_succ, Z.pow_succ_r by lia.
    rewrite Qplus_0_r, <- inject_Z_plus.
    apply inject_Z_injective. lia.
Qed.

(** X5.  One call sleeps for [2^(n-1) - 1] seconds in all when it makes [n]
    posts, hence for at most [2^(attempts-1) - 1] seconds: 15 seconds with
    the default budget of five attempts. *)
Theorem total_backoff_bounded
        (server : nat -> request -> http_result) (api_key model : string)
        (messages : list json) (attempts : nat) (w : world) :
  exists t,
    trace (snd (send_messages server api_key model messages attempts w))
    = trace w ++ t /\
    (total_sleep (sleeps_of t)
     == inject_Z (2 ^ Z.of_nat (List.length (posts_of t) - 1) - 1))%Q /\
    (total_sleep (sleeps_of t) <= inject_Z (2 ^ Z.of_nat (attempts - 1) - 1))%Q.
Proof.
  destruct (send_loop_run server attempts (mk_request api_key model messages)
              attempts 1 w)
    as (n & t & r & w' & Hrun & Hn & _ & _ & Htrace & Hpo & Hsl & _); [lia|].
  exists t. unfold send_messages. fold (mk_request api_key model messages).
  rewrite Hrun. cbn [snd]. split; [assumption|].
  rewrite Hsl, Hpo, repeat_length, total_backoff. split; [reflexivity|].
  rewrite <- Zle_Qle.
  assert ((2 ^ Z.of_nat (n - 1) <= 2 ^ Z.of_nat (attempts - 1))%Z)
    by (apply Z.pow_le_mono_r; lia).
  lia.
Qed.

(* ================================================================== *)
(** ** Further properties of the conversation driver *)

Lemma is_prefix_refl (l : list json) : is_prefix l l.
Proof. exists []. now rewrite app_nil_r. Qed.

Lemma is_prefix_trans (a b c : list json) :
  is_prefix a b -> is_prefix b c -> is_prefix a c.
Proof. intros [x ->] [y ->]. exists (x ++ y). now rewrite app_assoc. Qed.

Lemma is_prefix_app (a b : list json) : is_prefix a (a ++ b).
Proof. now exists b. Qed.

Lemma sorted_repeat_app {A} (R : A -> A -> Prop) (x : A) (n : nat) (l : list A) :
  R x x -> Forall (R x) l -> StronglySorted R l ->
  StronglySorted R (repeat x n ++ l).
Proof.
  intros Hx Hl Hs. induction n as [|n IH]; cbn; [assumption|].
  constructor; [assumption|].
  apply Forall_app. split; [|assumption].
  apply Forall_forall. intros y Hy. apply repeat_spec in Hy. now subst.
Qed.

Section DriverRuns.

Variable server : nat -> request -> http_result.
Variable read_b64 : string -> option string.
Variables api_key model : string.

(** One call from the driver: some posts of the one request, no write. *)
Lemma driver_call (messages : list json) (w : world) :
  exists n t r w1,
    send_messages server api_key model messages 5 w = (r, w1) /\
    1 <= n /\
    trace w1 = trace w ++ t /\
    posts_of t = repeat (mk_request api_key model messages) n /\
    writes_of t = [].
Proof.
  destruct (send_loop_run server 5 (mk_request api_key model messages) 5 1 w)
    as (n & t & r & w1 & Hrun & _ & Hn1 & _ & Htrace & Hpo & _ & Hwr & _); [lia|].
  exists n, t, r, w1. repeat split; try assumption. apply Hn1. discriminate.
Qed.

(** Every request of the frame loop carries the key, the model and a
    conversation that extends the one the loop started from and is extended
    by the one it ends with; each request extends the one before it; the
    loop writes nothing. *)
Lemma frame_loop_trace (frames : list string) :
  forall idx convo w r w',
    frame_loop server read_b64 api_key model idx frames convo w = (r, w') ->
    exists t,
      trace w' = trace w ++ t /\
      writes_of t = [] /\
      Forall (fun rq =>
                req_api_key rq = api_key /\ req_model rq = model /\
                is_prefix convo (req_messages rq) /\
                forall c' h, r = Ok (c', h) -> is_prefix (req_messages rq) c')
             (posts_of t) /\
      StronglySorted (fun a b => is_prefix (req_messages a) (req_messages b))
                     (posts_of t) /\
      (forall c' h, r = Ok (c', h) -> is_prefix convo c').
Proof.
  induction frames as [|name rest IH]; intros idx convo w r w' H.
  - cbn in H. injection H as <- <-. exists []. rewrite app_nil_r.
    repeat split; try constructor.
    intros c' h [= <- _]. apply is_prefix_refl.
  - cbn [frame_loop] in H. unfold b64_data_uri in H.
    destruct (read_b64 name) as [b64|] eqn:Hread.
    2:{ cbn in H. injection H as <- <-. exists []. rewrite app_nil_r.
        repeat split; try constructor. discriminate. }
    unfold bind at 1, ret at 1 in H.
    fold (data_uri_of name b64) in H. fold (user_turn idx name b64) in H.
    unfold bind at 1 in H.
    destruct (driver_call (convo ++ [user_turn idx name b64]) w)
      as (n & t1 & r1 & w1 & Hsend & Hn & Ht1 & Hp1 & Hw1).
    rewrite Hsend in H.
    set (rq := mk_request api_key model (convo ++ [user_turn idx name b64])) in *.
    assert (Hrep : forall (Q : request -> Prop), Q rq -> Forall Q (repeat rq n)).
    { intros Q HQ. apply Forall_forall. intros y Hy.
      apply repeat_spec in Hy. now subst. }
    destruct r1 as [reply|e].
    2:{ injection H as <- <-. exists t1. rewrite Hp1.
        repeat split; trivial; try discriminate.
        - apply Hrep. repeat split; try discriminate. apply is_prefix_app.
        - rewrite <- (app_nil_r (repeat rq n)).
          apply sorted_repeat_app; try constructor. apply is_prefix_refl. }
    destruct (truthy reply) eqn:Htruth; cbn [negb] in H.
    + unfold bind at 1, emit at 1 in H. cbn [posts trace] in H.
      apply IH in H.
      destruct H as (t2 & Ht2 & Hw2 & Hall & Hsorted & Hfinal).
      cbn [trace] in Ht2.
      exists (t1 ++ [EvPrint (Frame_reply idx name reply)] ++ t2).
      rewrite !posts_of_app, !writes_of_app, Hp1, Hw1, Hw2. cbn.
      assert (Hstep : is_prefix (convo ++ [user_turn idx name b64])
                        ((convo ++ [user_turn idx name b64])
                           ++ [message "assistant" reply]))
        by apply is_prefix_app.
      split; [|split; [reflexivity|split; [|split]]].
      * rewrite Ht2, Ht1. now rewrite <- !app_assoc.
      * apply Forall_app. split.
        -- apply Hrep. repeat split; [apply is_prefix_app|].
           intros c' h Hr. cbn [req_messages rq].
           eapply is_prefix_trans; [exact Hstep | eapply Hfinal, Hr].
        -- eapply Forall_impl; [|exact Hall].
           intros q (Hk & Hm & Hpre & Hpost). repeat split; trivial.
           eapply is_prefix_trans; [|exact Hpre].
           eapply is_prefix_trans; [apply is_prefix_app | exact Hstep].
      * apply sorted_repeat_app; [apply is_prefix_refl | | assumption].
        eapply Forall_impl; [|exact Hall].
        intros q (_ & _ & Hpre & _). cbn [req_messages rq].
        eapply is_prefix_trans; [exact Hstep | exact Hpre].
      * intros c' h Hr.
        eapply is_prefix_trans; [|eapply Hfinal, Hr].
        eapply is_prefix_trans; [apply is_prefix_app | exact Hstep].
    + unfold bind, emit, ret in H. injection H as <- <-.
      exists (t1 ++ [EvPrint (Frame_failed idx name)]). cbn [trace].
      rewrite !posts_of_app, !writes_of_app, Hp1, Hw1, Ht1. cbn.
      rewrite !app_nil_r.
      split; [now rewrite <- app_assoc|]. split; [reflexivity|].
      split; [|split].
      * apply Hrep. repeat split; [apply is_prefix_app|].
        intros c' h [= <- _]. apply is_prefix_refl.
      * rewrite <- (app_nil_r (repeat rq n)).
        apply sorted_repeat_app; try constructor. apply is_prefix_refl.
      * intros c' h [= <- _]. apply is_prefix_app.
Qed.

End DriverRuns.


Section ConverseRuns.

Variable server : nat -> request -> http_result.
Variable read_b64 : string -> option string.
Variables api_key model : string.

Lemma summarize_trace (convo : list json) (w : world) :
  exists n t,
    1 <= n /\
    trace (snd (summarize server api_key model convo w)) = trace w ++ t /\
    writes_of t = [] /\
    posts_of t = repeat (mk_request api_key model (convo ++ [summary_request])) n /\
    (forall c', fst (summarize server api_key model convo w) = Ok c' ->
                is_prefix (convo ++ [summary_request]) c').
Proof.
  destruct (driver_call server api_key model (convo ++ [summary_request]) w)
    as (n & t1 & r1 & w1 & Hsend & Hn & Ht1 & Hp1 & Hw1).
  unfold summarize, bind. rewrite Hsend.
  destruct r1 as [reply|e].
  - destruct (truthy reply).
    + exists n, (t1 ++ [EvPrint (Birds_eye_map reply)]).
      unfold emit, ret. cbn [fst snd trace].
      rewrite posts_of_app, writes_of_app, Hp1, Hw1, Ht1. cbn. rewrite app_nil_r.
      repeat split; trivial; [now rewrite <- app_assoc|].
      intros c' [= <-]. apply is_prefix_app.
    + exists n, (t1 ++ [EvPrint Birds_eye_failed]).
      unfold emit, ret. cbn [fst snd trace].
      rewrite posts_of_app, writes_of_app, Hp1, Hw1, Ht1. cbn. rewrite app_nil_r.
      repeat split; trivial; [now rewrite <- app_assoc|].
      intros c' [= <-]. apply is_prefix_refl.
  - exists n, t1. cbn [fst snd]. repeat split; trivial. discriminate.
Qed.


Lemma converse_writes_nothing (frames : list string) (w : world) :
  exists t,
    trace (snd (converse server read_b64 api_key model frames w)) = trace w ++ t /\
    writes_of t = [].
Proof.
  unfold converse, bind at 1, emit at 1, bind at 1. cbn [posts trace].
  destruct (frame_loop server read_b64 api_key model 1 frames [system_turn] _)
    as [[[c1 h]|e] w1] eqn:Hloop;
    apply frame_loop_trace in Hloop;
    destruct Hloop as (t1 & Ht1 & Hw1 & _); cbn [trace] in Ht1.
  - destruct (summarize_trace c1 w1) as (n & t2 & _ & Ht2 & Hw2 & _).
    cbn [fst]. exists ([EvPrint Prompt_sent] ++ t1 ++ t2).
    rewrite Ht2, Ht1, !writes_of_app, Hw1, Hw2.
    split; [now rewrite <- !app_assoc | reflexivity].
  - cbn [snd]. exists ([EvPrint Prompt_sent] ++ t1).
    rewrite Ht1, !writes_of_app, Hw1.
    split; [now rewrite <- !app_assoc | reflexivity].
Qed.

End ConverseRuns.


Lemma filter_none {A} (f : A -> bool) (l : list A) :
  (forall x, In x l -> f x = false) -> filter f l = [].
Proof.
  induction l as [|x l IH]; intros H; [reflexivity|].
  cbn. rewrite (H x) by now left. apply IH. intros y Hy. apply H. now right.
Qed.

(** X7.  The transcript is written when, and only when, [main] runs to its
    end with a non-empty [--out] path: then exactly once, holding the final
    conversation.  When an exception leaves [main] (no key, no frames, an
    unreadable frame, an exception escaping from the client) nothing is
    written, whatever was exchanged before. *)
Theorem transcript_written_on_completion
        (server : nat -> request -> http_result)
        (read_b64 : string -> option string)
        (a : args) (env_key : option string) (entries : list string) (w : world) :
  exists t,
    trace (snd (main server read_b64 a env_key entries w)) = trace w ++ t /\
    writes_of t =
      match fst (main server read_b64 a env_key entries w), arg_out a with
      | Ok convo, Some (String c path) => [(String c path, convo)]
      | _, _ => []
      end.
Proof.
  assert (Hnone : exists t : list event,
             trace w = trace w ++ t /\ writes_of t = []).
  { exists []. now rewrite app_nil_r. }
  unfold main. destruct env_key as [[|c0 key]|]; cbn [raise fst snd]; trivial.
  destruct (py_sorted_spec (filter (glob_match FRAME_PATTERN) entries))
    as (frames & Hframes & _).
  unfold list_frames, bind, lift. rewrite Hframes.
  destruct frames as [|f fs]; cbn [raise fst snd]; trivial.
  destruct (converse_writes_nothing server read_b64 (String c0 key) (arg_model a)
              (f :: fs) w) as (t1 & Ht1 & Hw1).
  destruct (converse server read_b64 (String c0 key) (arg_model a) (f :: fs) w)
    as [[convo|e] w1]; cbn [fst snd] in *.
  - unfold write_transcript.
    destruct (arg_out a) as [[|c path]|]; unfold bind, emit, ret; cbn [fst snd trace].
    + exists t1. split; assumption.
    + exists (t1 ++ [EvWrite (String c path) convo;
                     EvPrint (Transcript_written (String c path))]).
      rewrite Ht1, writes_of_app, Hw1, <- !app_assoc. split; reflexivity.
    + exists t1. split; assumption.
  - exists t1. split; [assumption|]. rewrite Hw1. now destruct (arg_out a) as [[|]|].
Qed.

(** X8.  Without a key in the environment (unset or empty), or with no
    entry of the directory matching the frame pattern, [main] raises
    [RuntimeError] before anything is printed, posted or written. *)
Theorem configuration_errors_come_first
        (server : nat -> request -> http_result)
        (read_b64 : string -> option string)
        (a : args) (env_key : option string) (entries : list string) (w : world) :
  env_key = None \/ env_key = Some EmptyString \/
  (forall name, In name entries -> glob_match FRAME_PATTERN name = false) ->
  main server read_b64 a env_key entries w = (Raise RuntimeError, w).
Proof.
  intros [-> | [-> | Hnone]]; try reflexivity.
  unfold main. destruct env_key as [[|c key]|]; try reflexivity.
  unfold list_frames. rewrite (filter_none _ _ Hnone). reflexivity.
Qed.

Lemma configuration_errors_come_first_witness :
  main (always (Response 200 (Some (reply_body (JStr "seen")))))
    (fun _ => Some "QUJD")
    {| arg_dir := "frames"; arg_model := "model"; arg_out := Some "t.json" |}
    (Some "key") ["notes.txt"; "a.jpeg"; "clip.gif"] world0
  = (Raise RuntimeError, world0).
Proof.
  apply configuration_errors_come_first.
  right. right. intros name [<- | [<- | [<- | []]]]; reflexivity.
Defined.

(** X9.  When the frame loop is left at frame [k], the conversation holds
    [2k] turns: the system turn, the exchanges of frames [1 .. k-1], and
    last the user turn of frame [k], which stays unanswered; no later frame
    has a turn. *)
Theorem halted_conversation_shape
        (server : nat -> request -> http_result)
        (read_b64 : string -> option string) (api_key model : string)
        (frames : list string) (w w1 : world) (convo : list json) (k : nat) :
  frame_loop server read_b64 api_key model 1 frames [system_turn] w
    = (Ok (convo, Some k), w1) ->
  1 <= k <= List.length frames /\
  List.length convo = 2 * k /\
  exists name b64,
    nth_error frames (k - 1) = Some name /\
    read_b64 name = Some b64 /\
    nth_error convo (2 * k - 1) = Some (user_turn k name b64).
Proof.
  intros H. apply frame_loop_turns in H. destruct H as (ts & -> & Hts).
  destruct (loop_turns_halted read_b64 1 frames ts k Hts) as [Hk Hlen].
  split; [lia|]. split; [cbn [List.length app]; lia|].
  destruct (nth_error frames (k - 1)) as [name|] eqn:Hname.
  2:{ apply nth_error_None in Hname. lia. }
  destruct (loop_turns_user read_b64 1 frames ts (Some k) Hts (k - 1) name Hname)
    as (b64 & Hread & Hnth); [lia|].
  exists name, b64. repeat split; trivial.
  cbn [app]. replace (2 * k - 1) with (S (2 * (k - 1))) by lia. cbn [nth_error].
  rewrite Hnth. do 2 f_equal. lia.
Qed.

Lemma halted_conversation_shape_witness :
  1 <= 2 <= 3 /\
  List.length [system_turn; user_turn 1 "a.png" "QUJD"; message "assistant" (JStr "seen");
               user_turn 2 "b.png" "QUJD"] = 2 * 2 /\
  exists name b64,
    nth_error ["a.png"; "b.png"; "c.png"] (2 - 1) = Some name /\
    Some "QUJD" = Some b64 /\
    nth_error [system_turn; user_turn 1 "a.png" "QUJD"; message "assistant" (JStr "seen");
               user_turn 2 "b.png" "QUJD"] (2 * 2 - 1) = Some (user_turn 2 name b64).
Proof.
  refine (halted_conversation_shape
            (fun n _ => if Nat.eqb n 0
                        then Response 200 (Some (reply_body (JStr "seen")))
                        else Response 500 None)
            (fun _ => Some "QUJD") "key" "model" ["a.png"; "b.png"; "c.png"]
            world0 _ _ 2 _).
  vm_compute. reflexivity.
Defined.

(* ================================================================== *)
(** ** Further properties of the frame enumerator *)

Lemma extension_matched (s : string) :
  glob_match (tl FRAME_PATTERN) s = true ->
  In s [".png"; ".ppg"; ".jng"; ".jpg"].
Proof.
  cbn [tl FRAME_PATTERN glob_match].
  destruct s as [|c1 [|c2 [|c3 [|c4 [|c5 s]]]]];
    rewrite ?andb_false_r; try discriminate.
  rewrite andb_true_r. cbn [existsb]. rewrite !orb_false_r.
  intros H. apply andb_prop in H. destruct H as [H1 H].
  apply andb_prop in H. destruct H as [H2 H].
  apply andb_prop in H. destruct H as [H3 H4].
  apply Ascii.eqb_eq in H1, H4. subst c1 c4.
  apply orb_prop in H2, H3.
  destruct H2 as [H2|H2], H3 as [H3|H3];
    apply Ascii.eqb_eq in H2, H3; subst c2 c3; cbn; tauto.
Qed.

(** X10.  The pattern ["*.[pj][np]g"] matches the names that end in one of
    the four extensions its two character classes spell: [.png], [.ppg],
    [.jng] and [.jpg], and no others. *)
Theorem pattern_matches_four_extensions (name : string) :
  glob_match FRAME_PATTERN name = true <->
  exists stem ext,
    name = (stem ++ ext)%string /\ In ext [".png"; ".ppg"; ".jng"; ".jpg"].
Proof.
  split.
  - change FRAME_PATTERN with (Star :: tl FRAME_PATTERN).
    induction name as [|c name IH]; rewrite glob_star.
    + rewrite orb_false_r. intros H. exists EmptyString, EmptyString.
      split; [reflexivity | now apply extension_matched].
    + intros H. apply orb_prop in H. destruct H as [H|H].
      * exists EmptyString, (String c name).
        split; [reflexivity | now apply extension_matched].
      * destruct (IH H) as (stem & ext & -> & Hext).
        exists (String c stem), ext. split; [reflexivity | assumption].
  - intros (stem & ext & -> & Hext).
    change FRAME_PATTERN with (Star :: tl FRAME_PATTERN).
    apply glob_star_append.
    cbn in Hext. destruct Hext as [<- | [<- | [<- | [<- | []]]]]; reflexivity.
Qed.

Lemma pattern_matches_four_extensions_witness :
  glob_match FRAME_PATTERN "scan.jng" = true.
Proof.
  apply (proj2 (pattern_matches_four_extensions "scan.jng")).
  exists "scan", ".jng". split; [reflexivity|]. cbn. tauto.
Defined.

(** *** How a name with a digit run splits *)












(* ================================================================== *)
(** ** Properties of the image encoder *)

Lemma from_last_dot_none (e : string) : no_dots e = true -> from_last_dot e = None.
Proof.
  induction e as [|c e IH]; [reflexivity|]. cbn [no_dots from_last_dot].
  intros H. apply andb_prop in H. destruct H as [Hc He].
  apply negb_true_iff in Hc. now rewrite (IH He), Hc.
Qed.

Lemma from_last_dot_found (x e : string) :
  no_dots e = true ->
  from_last_dot (x ++ String "." e) = Some (String "." e).
Proof.
  intros He. induction x as [|c x IH]; cbn [String.append from_last_dot].
  - now rewrite (from_last_dot_none e He).
  - now rewrite IH.
Qed.

Lemma suffix_of_extension (stem e : string) :
  stem <> EmptyString -> e <> EmptyString -> no_dots e = true ->
  suffix (stem ++ String "." e) = String "." e.
Proof.
  intros Hstem He Hdots. destruct stem as [|c x]; [contradiction|].
  cbn [String.append suffix]. rewrite (from_last_dot_found x e Hdots).
  destruct e; [contradiction | reflexivity].
Qed.

(** X13.  The encoder labels a frame by the last extension of its name,
    lowered: [image/png] when that is [png] in any letter case,
    [image/jpeg] for every other extension (also for [gif]).  A name that
    is nothing but the extension, like [.png], has no suffix and is
    labelled [image/jpeg].  The URI is the label followed by the base64
    text; a frame that cannot be read raises [OSError]; the world is left
    as it is. *)
Theorem encoder_labels_by_extension
        (read_b64 : string -> option string) (stem e : string) (w : world) :
  e <> EmptyString -> no_dots e = true ->
  let label (name : string) :=
    match read_b64 name with
    | Some b64 =>
        (Ok ((if String.eqb (lower e) "png"
              then "data:image/png;base64," else "data:image/jpeg;base64,")
               ++ b64)%string, w)
    | None => (Raise OSError, w)
    end in
  (stem <> EmptyString ->
   b64_data_uri read_b64 (stem ++ String "." e) w = label (stem ++ String "." e)%string) /\
  b64_data_uri read_b64 (String "." e) w
  = match read_b64 (String "." e) with
    | Some b64 => (Ok ("data:image/jpeg;base64," ++ b64)%string, w)
    | None => (Raise OSError, w)
    end.
Proof.
  intros He Hdots label. split.
  - intros Hstem. unfold label, b64_data_uri, mime_of.
    rewrite (suffix_of_extension stem e Hstem He Hdots).
    destruct (read_b64 (stem ++ String "." e)%string); [|reflexivity].
    change (lower (String "." e)) with (String "." (lower e)).
    change ".png" with (String "." "png"). cbn [String.eqb].
    change (Ascii.eqb "." ".") with true. cbn [andb].
    destruct (String.eqb (lower e) "png"); reflexivity.
  - unfold b64_data_uri, mime_of. cbn [suffix].
    rewrite (from_last_dot_none e Hdots).
    destruct (read_b64 (String "." e)); reflexivity.
Qed.

Lemma encoder_labels_by_extension_witness :
  b64_data_uri (fun _ => Some "QUJD") "shot.PNG" world0
  = (Ok "data:image/png;base64,QUJD", world0) /\
  b64_data_uri (fun _ => Some "QUJD") ".PNG" world0
  = (Ok "data:image/jpeg;base64,QUJD", world0).
Proof.
  destruct (encoder_labels_by_extension (fun _ => Some "QUJD") "shot" "PNG" world0)
    as [Hnamed Hbare]; [discriminate | reflexivity |].
  split; [apply Hnamed; discriminate | exact Hbare].
Defined.

(* ================================================================== *)
(** ** Further properties of the screenshot capturer *)

Module CapturerRuns.

Import Capturer.

Lemma saved_of_app (a b : list event) : saved_of (a ++ b) = saved_of a ++ saved_of b.
Proof. apply flat_map_app. Qed.

Section Machine.

Variables grab to_png sleep : nat -> step.
Variable time : nat -> Z.
Variable interval : Z.

Lemma handler_saves_nothing (e : exc) (out : list event) :
  exists line,
    handler e out = (Returned, out ++ [line]) /\ saved_of [line] = [].
Proof. destruct e; eexists; split; reflexivity. Qed.

(** The loop can only end by returning. *)
Lemma capture_loop_returns (fuel : nat) :
  forall n out r out',
    capture_loop grab to_png sleep time interval fuel n out = Some (r, out') ->
    r = Returned.
Proof.
  induction fuel as [|fuel IH]; intros n out r out'; cbn [capture_loop];
    [discriminate|].
  destruct (grab n) as [|e1].
  - destruct (to_png n) as [|e2].
    + destruct (sleep n) as [|e3]; [apply IH|].
      destruct e3; cbn; congruence.
    + destruct e2; cbn; congruence.
  - destruct e1; cbn; congruence.
Qed.

(** One screenshot a round, stamped with the clock reading of the round. *)
Lemma capture_loop_saved (k : nat) :
  forall n out e fuel,
    (forall j, j < k -> round_raises grab to_png sleep (n + j) = None) ->
    round_raises grab to_png sleep (n + k) = Some e ->
    k < fuel ->
    exists out',
      capture_loop grab to_png sleep time interval fuel n out
      = Some (Returned, out ++ out') /\
      saved_of out' =
        map time (seq n k)
        ++ match grab (n + k), to_png (n + k) with
           | Done, Done => [time (n + k)]
           | _, _ => []
           end.
Proof.
  induction k as [|k IH]; intros n out e fuel Hquiet Hraise Hfuel;
    (destruct fuel as [|fuel]; [lia|]); cbn [capture_loop].
  - rewrite Nat.add_0_r in *. unfold round_raises in Hraise.
    destruct (grab n) as [|e1].
    + destruct (to_png n) as [|e2].
      * destruct (sleep n) as [|e3]; [discriminate|].
        destruct (handler_saves_nothing e3
                    (out ++ [Saved (time n); Print_saved (time n)]))
          as (line & -> & Hline).
        exists ([Saved (time n); Print_saved (time n)] ++ [line]).
        rewrite app_assoc. split; [reflexivity|].
        rewrite saved_of_app, Hline. reflexivity.
      * destruct (handler_saves_nothing e2 out) as (line & -> & Hline).
        exists [line]. split; [reflexivity | exact Hline].
    + destruct (handler_saves_nothing e1 out) as (line & -> & Hline).
      exists [line]. split; [reflexivity | exact Hline].
  - destruct (CapturerFacts.quiet_round grab to_png sleep n) as (-> & -> & ->).
    + rewrite <- (Nat.add_0_r n). apply Hquiet. lia.
    + destruct (IH (S n)
                  ((out ++ [Saved (time n); Print_saved (time n)]) ++ [Slept interval])
                  e fuel) as (out' & -> & Hsaved); [| |lia|].
      * intros j Hj. replace (S n + j) with (n + S j) by lia. apply Hquiet. lia.
      * now replace (S n + k) with (n + S k) by lia.
      * exists ([Saved (time n); Print_saved (time n)] ++ [Slept interval] ++ out').
        split; [now rewrite <- !app_assoc|].
        rewrite !saved_of_app, Hsaved.
        replace (S n + k) with (n + S k) by lia. reflexivity.
Qed.

End Machine.

(** X14.  A run that ends has saved one screenshot for every round that
    passed without an exception, named by the clock reading of its round,
    in order; the round that raised has its screenshot saved only if the
    exception came after the file was written, during the sleep. *)
Theorem screenshots_saved_per_round
        (py_int : string -> option Z) (grab to_png sleep : nat -> step)
        (time : nat -> Z) (prog interval_arg dir : string) (interval : Z)
        (k fuel : nat) (e : exc) :
  py_int interval_arg = Some interval ->
  (0 < interval)%Z ->
  (forall n, n < k -> round_raises grab to_png sleep n = None) ->
  round_raises grab to_png sleep k = Some e ->
  k < fuel ->
  exists out,
    script py_int Done grab to_png sleep time [prog; interval_arg; dir] fuel
    = Some (Exit 0, out) /\
    saved_of out =
      map time (seq 0 k)
      ++ match grab k, to_png k with
         | Done, Done => [time k]
         | _, _ => []
         end.
Proof.
  intros Hint Hpos Hquiet Hraise Hfuel.
  assert (Hle : (interval <=? 0)%Z = false) by (apply Z.leb_gt; lia).
  unfold script, start_screenshot_capture. rewrite Hint, Hle.
  destruct (capture_loop_saved grab to_png sleep time interval k 0
              ([] ++ [Print_start interval dir]) e fuel Hquiet Hraise Hfuel)
    as (out' & -> & Hsaved).
  eexists. split; [reflexivity|].
  rewrite !saved_of_app, Hsaved. reflexivity.
Qed.

Lemma screenshots_saved_per_round_witness :
  exists out,
    script int_of_one Done works works
      (fun n => if Nat.eqb n 2 then Raises KeyboardInterrupt else Done)
      (clock 1700000000 1) ["screenshot_tool.py"; "1"; "shots"] 5
    = Some (Exit 0, out) /\
    saved_of out =
      map (clock 1700000000 1) (seq 0 2) ++ [clock 1700000000 1 2].
Proof.
  apply (screenshots_saved_per_round int_of_one works works
           (fun n => if Nat.eqb n 2 then Raises KeyboardInterrupt else Done)
           (clock 1700000000 1) "screenshot_tool.py" "1" "shots" 1 2 5
           KeyboardInterrupt).
  - reflexivity.
  - lia.
  - intros n Hn. destruct n as [|[|n]]; [reflexivity | reflexivity | lia].
  - reflexivity.
  - lia.
Defined.

(** X15.  The script exits with status 0 or 1 or by an uncaught exception
    of the set-up.  Whenever it does not exit with status 0, it has saved
    no screenshot and has not even announced the capture: all it has
    printed is the usage line, the interval error line, or nothing. *)
Theorem failure_captures_nothing
        (py_int : string -> option Z) (setup : step)
        (grab to_png sleep : nat -> step) (time : nat -> Z)
        (argv : list string) (fuel : nat) (e : process_end) (out : list event) :
  script py_int setup grab to_png sleep time argv fuel = Some (e, out) ->
  is_failure e = true ->
  (e = Exit 1 \/ exists x, e = Uncaught x /\ setup = Raises x) /\
  saved_of out = [] /\
  (out = [Print_usage] \/ out = [Print_bad_interval] \/ out = []).
Proof.
  unfold script.
  destruct argv as [|a0 [|a1 [|a2 [|a3 rest]]]];
    try (intros [= <- <-] _; cbn; tauto).
  destruct (py_int a1) as [interval|]; [|intros [= <- <-] _; cbn; tauto].
  unfold start_screenshot_capture.
  destruct (interval <=? 0)%Z; [intros [= <- <-] _; cbn; tauto|].
  destruct setup as [|x].
  - destruct (capture_loop grab to_png sleep time interval fuel 0 _)
      as [[r out']|] eqn:Hloop; [|discriminate].
    apply capture_loop_returns in Hloop. subst r.
    intros [= <- <-]. discriminate.
  - destruct x; intros [= <- <-] _; cbn; eauto 8.
Qed.

Lemma failure_captures_nothing_witness :
  (Exit 1 = Exit 1 \/ exists x, Exit 1 = Uncaught x /\ Done = Raises x) /\
  saved_of [Print_bad_interval] = [] /\
  ([Print_bad_interval] = [Print_usage]
   \/ [Print_bad_interval] = [Print_bad_interval]
   \/ [Print_bad_interval] = []).
Proof.
  apply (failure_captures_nothing (fun _ => Some 0%Z) Done works works works
           (clock 0 1) ["screenshot_tool.py"; "0"; "shots"] 3).
  - reflexivity.
  - reflexivity.
Defined.

End CapturerRuns.
